(** * P-M interaction diagram of a rectangular RC column (script.js)

    A shallow embedding of [calculateAndDraw] and [calculatePoint] and the
    properties of the interaction-diagram engine they implement.

    Numbers.  A JavaScript number is modelled as [num]: either [NaN] or an
    exact rational [Num q].  Arithmetic is exact (no rounding, no overflow)
    and propagates [NaN]; every comparison with [NaN] is false, as in
    JavaScript.  The model has no infinities: a quotient by zero, which is
    an infinity (or NaN) in JavaScript, is [NaN] here.  In this program the
    only divisors that are not literals are [ny - 1], used under the guard
    [ny > 2], and the neutral-axis depth [c = ratio * h], which is zero only
    when [h] is zero.

    [parseInt] yields an integer or NaN: [nx] and [ny] are [option Z]. *)

From Stdlib Require Import QArith ZArith List Sorted Bool Lia Lqa.
From Stdlib Require String.
Import ListNotations.

Open Scope Q_scope.

(** ** JavaScript numbers *)

Module Js.

Inductive num : Type :=
| NaN : num
| Num : Q -> num.

Definition isNaN (v : num) : bool :=
  match v with NaN => true | Num _ => false end.

Definition lift2 (f : Q -> Q -> Q) (u v : num) : num :=
  match u, v with
  | Num p, Num q => Num (f p q)
  | _, _ => NaN
  end.

Definition add : num -> num -> num := lift2 Qplus.
Definition sub : num -> num -> num := lift2 Qminus.
Definition mul : num -> num -> num := lift2 Qmult.

Definition div (u v : num) : num :=
  match u, v with
  | Num p, Num q => if Qeq_bool q 0 then NaN else Num (p / q)
  | _, _ => NaN
  end.

Definition neg (u : num) : num :=
  match u with Num p => Num (- p) | NaN => NaN end.

(** [u < v]; false as soon as one side is NaN. *)
Definition ltb (u v : num) : bool :=
  match u, v with
  | Num p, Num q => negb (Qle_bool q p)
  | _, _ => false
  end.

(** [u > v]. *)
Definition gtb (u v : num) : bool := ltb v u.

(** The number of an integer, and of the result of [parseInt]. *)
Definition ofZ (z : Z) : num := Num (inject_Z z).

Definition ofInt (i : option Z) : num :=
  match i with Some z => ofZ z | None => NaN end.

(** [u <= v] on numeric values. *)
Definition le (u v : num) : Prop :=
  match u, v with
  | Num p, Num q => p <= q
  | _, _ => False
  end.

End Js.

Import Js.

Declare Scope js_scope.
Delimit Scope js_scope with js.
Bind Scope js_scope with num.
Infix "+" := add : js_scope.
Infix "-" := sub : js_scope.
Infix "*" := mul : js_scope.
Infix "/" := div : js_scope.
Notation "- u" := (neg u) : js_scope.
Infix ">?" := gtb (at level 70, no associativity) : js_scope.
Infix "<?" := ltb (at level 70, no associativity) : js_scope.

(** ** Data *)

(** A reinforcement layer [{y: distance_from_top, As: area}]. *)
Module Layer.
Record t : Type := mk { y : num; As : num }.
End Layer.

(** A point [{x, y}] of the diagram: [x] is the moment, [y] the axial force. *)
Module Point.
Record t : Type := mk { x : num; y : num }.
End Point.

(** The eight values read from the form, after [parseFloat] / [parseInt]. *)
Record Inputs : Type := mkInputs {
  fc : num;
  fy : num;
  b : num;
  h : num;
  cover : num;
  barArea : num;
  nx : option Z;
  ny : option Z
}.

(** What [calculateAndDraw] hands over: the points given to [drawChart] and
    the two summary values written to the page. *)
Record Diagram : Type := mkDiagram {
  points : list Point.t;
  Po : num;
  Mo_approx : num
}.

(** ** Constants *)

(** [2.04e6], written without the exponent. *)
Definition Es : num := Num 2040000.
Definition epsilon_cu : num := Num 0.003.

Definition c_ratios : list num :=
  map Num
    [2.0; 1.5; 1.2; 1.1; 1.0;
     0.9; 0.8; 0.7; 0.6; 0.55; 0.5; 0.45; 0.4; 0.35; 0.3; 0.25; 0.2; 0.15;
     0.1; 0.05].

(** ** Steel layers *)

Definition sideBarsPerLayer : num := Num 2.

(** [for (let i = 1; i <= numSideLayers; i++) steelLayers.push(...)].
    [fuel] bounds the number of iterations; the guard is the loop's own. *)
Fixpoint sideLoop (fuel : nat) (i numSideLayers : Z)
    (cover verticalSpacing barArea : num) (steelLayers : list Layer.t)
    : list Layer.t :=
  match fuel with
  | O => steelLayers
  | S fuel' =>
      if (i <=? numSideLayers)%Z then
        sideLoop fuel' (i + 1)%Z numSideLayers cover verticalSpacing barArea
          (steelLayers ++
             [Layer.mk (cover + ofZ i * verticalSpacing)%js
                       (sideBarsPerLayer * barArea)%js])
      else steelLayers
  end.

(** Step 2 of [calculateAndDraw]: top layer, bottom layer, side layers. *)
Definition steelLayers (h cover barArea : num) (nx ny : option Z)
    : list Layer.t :=
  let steelLayers := [] in
  let steelLayers := steelLayers ++ [Layer.mk cover (ofInt nx * barArea)%js] in
  let steelLayers :=
    steelLayers ++ [Layer.mk (h - cover)%js (ofInt nx * barArea)%js] in
  match ny with
  | Some n =>
      if (n >? 2)%Z then
        let numSideLayers := (n - 2)%Z in
        let verticalSpacing :=
          ((h - Num 2 * cover) / (ofZ n - Num 1))%js in
        sideLoop (Z.to_nat numSideLayers) 1 numSideLayers
          cover verticalSpacing barArea steelLayers
      else steelLayers
  | None => steelLayers
  end.

(** [steelLayers.reduce((sum, layer) => sum + layer.As, 0)]. *)
Definition Ast (layers : list Layer.t) : num :=
  fold_left (fun sum layer => (sum + Layer.As layer)%js) layers (Num 0).

Definition Ag (b h : num) : num := (b * h)%js.

(** ** Stress-block factor *)

(** Step 3 of [calculateAndDraw]. *)
Definition beta1 (fc : num) : num :=
  let beta1 := Num 0.85 in
  if (fc >? Num 280)%js then
    let beta1 := (Num 0.85 - Num 0.05 * (fc - Num 280) / Num 70)%js in
    if (beta1 <? Num 0.65)%js then Num 0.65 else beta1
  else beta1.

(** ** The single-point solver, [calculatePoint] *)

(** [let a = beta1 * c; if (a > h) a = h;] *)
Definition blockDepth (c h beta1 : num) : num :=
  let a := (beta1 * c)%js in
  if (a >? h)%js then h else a.

(** The concrete block: [C_c] and [M_c], from the depth [a]. *)
Definition concreteForce (b fc a : num) : num :=
  (Num 0.85 * fc * b * a)%js.

Definition concreteMoment (h C_c a : num) : num :=
  (C_c * (h / Num 2 - a / Num 2))%js.

(** The stress of the steel at depth [d]: strain by similar triangles, then
    the two clamps. *)
Definition steelStress (c d fy epsilon_cu : num) : num :=
  let epsilon_s := (epsilon_cu * (c - d) / c)%js in
  let fs := (Es * epsilon_s)%js in
  let fs := if (fs >? fy)%js then fy else fs in
  let fs := if (fs <? - fy)%js then (- fy)%js else fs in
  fs.

(** The body of [steelLayers.forEach] on the accumulators [(Pn, Mn)]. *)
Definition steelStep (c h fy epsilon_cu : num) (acc : num * num)
    (layer : Layer.t) : num * num :=
  let '(Pn, Mn) := acc in
  let d := Layer.y layer in
  let fs := steelStress c d fy epsilon_cu in
  let F_s := (fs * Layer.As layer)%js in
  let M_s := (F_s * (h / Num 2 - d))%js in
  ((Pn + F_s)%js, (Mn + M_s)%js).

(** [Pn] (kgf) and [Mn] (kgf-cm) as they stand before the conversion. *)
Definition internalForces (c b h fc fy beta1 : num)
    (steelLayers : list Layer.t) (epsilon_cu : num) : num * num :=
  let Pn := Num 0 in
  let Mn := Num 0 in
  let a := blockDepth c h beta1 in
  let C_c := concreteForce b fc a in
  let M_c := concreteMoment h C_c a in
  let Pn := (Pn + C_c)%js in
  let Mn := (Mn + M_c)%js in
  fold_left (steelStep c h fy epsilon_cu) steelLayers (Pn, Mn).

Definition calculatePoint (c b h fc fy beta1 : num)
    (steelLayers : list Layer.t) (epsilon_cu : num) : Point.t :=
  let '(Pn, Mn) := internalForces c b h fc fy beta1 steelLayers epsilon_cu in
  Point.mk (Mn / Num 100000)%js (Pn / Num 1000)%js.

(** ** The diagram, [calculateAndDraw] *)

(** The body of [c_ratios.forEach] on the state [(points, maxM)]. *)
Definition sweepStep (b h fc fy beta1 : num) (steelLayers : list Layer.t)
    (st : list Point.t * num) (ratio : num) : list Point.t * num :=
  let '(points, maxM) := st in
  let c := (ratio * h)%js in
  let pt := calculatePoint c b h fc fy beta1 steelLayers epsilon_cu in
  (points ++ [pt], if (Point.x pt >? maxM)%js then Point.x pt else maxM).

(** Pure compression and pure tension, in tonf. *)
Definition pureCompression (fc fy Ag Ast : num) : num :=
  ((Num 0.85 * fc * (Ag - Ast) + fy * Ast) / Num 1000)%js.

Definition pureTension (fy Ast : num) : num :=
  (- fy * Ast / Num 1000)%js.

(** The basic validation: true when the function returns at once. *)
Definition rejected (i : Inputs) : bool :=
  isNaN (fc i) || isNaN (fy i) || isNaN (b i) || isNaN (h i)
  || isNaN (cover i) || isNaN (ofInt (nx i)) || isNaN (ofInt (ny i)).

(** [None]: the function returned before drawing anything. *)
Definition calculateAndDraw (i : Inputs) : option Diagram :=
  if rejected i then None
  else
    let layers := steelLayers (h i) (cover i) (barArea i) (nx i) (ny i) in
    let Ag := Ag (b i) (h i) in
    let Ast := Ast layers in
    let beta1 := beta1 (fc i) in
    let points := [] in
    let Po := pureCompression (fc i) (fy i) Ag Ast in
    let points := points ++ [Point.mk (Num 0) Po] in
    let maxM := Num 0 in
    let '(points, maxM) :=
      fold_left (sweepStep (b i) (h i) (fc i) (fy i) beta1 layers)
        c_ratios (points, maxM) in
    let Pt := pureTension (fy i) Ast in
    let points := points ++ [Point.mk (Num 0) Pt] in
    let Mo_approx := maxM in
    Some (mkDiagram points Po Mo_approx).

(** The form's default-like column used in the examples below. *)
Definition sample : Inputs :=
  mkInputs (Num 280) (Num 4200) (Num 30) (Num 50) (Num 4) (Num 2.85)
    (Some 3%Z) (Some 3%Z).

(** ** Numeric inputs and the invariants of the data model *)

(** An input all of whose eight fields are numbers. *)
Definition numeric (fc fy b h cover barArea : Q) (nx ny : Z) : Inputs :=
  mkInputs (Num fc) (Num fy) (Num b) (Num h) (Num cover) (Num barArea)
    (Some nx) (Some ny).

(** All strictly positive, [h > 2*cover], [nx >= 1], [ny >= 2]. *)
Definition invariants (fc fy b h cover barArea : Q) (nx ny : Z) : Prop :=
  0 < fc /\ 0 < fy /\ 0 < b /\ 0 < h /\ 0 < cover /\ 0 < barArea /\
  2 * cover < h /\ (1 <= nx)%Z /\ (2 <= ny)%Z.

Definition Valid (i : Inputs) : Prop :=
  exists fc fy b h cover barArea nx ny,
    i = numeric fc fy b h cover barArea nx ny /\
    invariants fc fy b h cover barArea nx ny.

(** The side layer [i] as the source computes it. *)
Definition sideLayer (h cover barArea : Q) (ny : Z) (i : Z) : Layer.t :=
  Layer.mk
    (Num (cover + inject_Z i * ((h - 2 * cover) / (inject_Z ny - 1))))
    (Num (2 * barArea)).

(** Side layers [1 .. m]. *)
Definition sideLayers (h cover barArea : Q) (ny : Z) (m : nat)
    : list Layer.t :=
  map (fun k => sideLayer h cover barArea ny (Z.of_nat k)) (seq 1 m).

(** The running maximum kept in [maxM]. *)
Definition runningMax (m : num) (xs : list num) : num :=
  fold_left (fun maxM x => if (x >? maxM)%js then x else maxM) xs m.

(** [m] is the greatest element of [xs]. *)
Definition greatest (m : num) (xs : list num) : Prop :=
  In m xs /\ Forall (fun x => le x m) xs.

(** A layer with a numeric depth and a numeric, non-negative area. *)
Definition numericLayer (l : Layer.t) : Prop :=
  exists d a : Q, l = Layer.mk (Num d) (Num a) /\ 0 <= a.

(** The point of the sweep at the ratio [r], for the inputs [i]. *)
Definition sweepPoint (i : Inputs) (r : num) : Point.t :=
  calculatePoint (r * h i)%js (b i) (h i) (fc i) (fy i) (beta1 (fc i))
    (steelLayers (h i) (cover i) (barArea i) (nx i) (ny i)) epsilon_cu.

(** The ladder of ratios [c / h], as rationals. *)
Definition ladder : list Q :=
  [2.0; 1.5; 1.2; 1.1; 1.0;
   0.9; 0.8; 0.7; 0.6; 0.55; 0.5; 0.45; 0.4; 0.35; 0.3; 0.25; 0.2; 0.15;
   0.1; 0.05].

(** A column with a single bar on each side face: [ny = 1]. *)
Definition oneSideBar : Inputs := numeric 280 4200 30 50 4 2.85 3 1.

(** Discharges [invariants] on literals. *)
Ltac check_invariants :=
  unfold invariants; repeat split; solve [reflexivity | lia].

(** The sample column with a concrete strength that is not a number. *)
Definition noStrength : Inputs :=
  mkInputs NaN (Num 4200) (Num 30) (Num 50) (Num 4) (Num 2.85)
    (Some 3%Z) (Some 3%Z).

(** The sample column with a bar area that is not a number. *)
Definition noBarArea : Inputs :=
  mkInputs (Num 280) (Num 4200) (Num 30) (Num 50) (Num 4) NaN
    (Some 3%Z) (Some 3%Z).

(** The steel stress as a rational (0 where [steelStress] is not a number). *)
Definition stressQ (c d fy : Q) : Q :=
  match steelStress (Num c) (Num d) (Num fy) epsilon_cu with
  | Num q => q
  | NaN => 0
  end.

(** The stress before the clamps. *)
Definition elasticStress (c d : Q) : Q := 2040000 * (0.003 * (c - d) / c).




(** ** The page

    [calculateAndDraw] writes the two summary fields and then calls
    [drawChart], which destroys the chart held in the global [pmChart], if
    any, and stores a new one.  The chart library and [toFixed] are not part
    of the program: a chart is its data, [created] and [destroyed] count the
    calls of [new Chart] and of [destroy], and [toFixed(1)] is a parameter.
    An event carries the values the form holds when it fires. *)
Module Page.
Import String.

Record Chart : Type := mkChart { data : list Point.t }.

Record t : Type := mk {
  pmChart : option Chart;
  created : nat;
  destroyed : nat;
  valPo : string;
  valMo : string
}.

Definition textPo (toFixed1 : num -> string) (Po : num) : string :=
  toFixed1 Po ++ " tonf".

Definition textMo (toFixed1 : num -> string) (Mo_approx : num) : string :=
  toFixed1 Mo_approx ++ " tonf-m".

Definition drawChart (p : t) (dataPoints : list Point.t) : t :=
  let destroyed :=
    match pmChart p with
    | Some _ => S (destroyed p)
    | None => destroyed p
    end in
  mk (Some (mkChart dataPoints)) (S (created p)) destroyed
    (valPo p) (valMo p).

(** The listener: [calculateAndDraw] acting on the page. *)
Definition handler (toFixed1 : num -> string) (p : t) (i : Inputs) : t :=
  match calculateAndDraw i with
  | None => p
  | Some d =>
      let p :=
        mk (pmChart p) (created p) (destroyed p)
          (textPo toFixed1 (Po d)) (valMo p) in
      let p :=
        mk (pmChart p) (created p) (destroyed p)
          (valPo p) (textMo toFixed1 (Mo_approx d)) in
      drawChart p (points d)
  end.

Definition run (toFixed1 : num -> string) (p : t) (evs : list Inputs) : t :=
  fold_left (handler toFixed1) evs p.

(** The page before the script runs; the two texts come from the document. *)
Definition initial (po0 mo0 : string) : t := mk None 0 0 po0 mo0.

(** The number of accepted events of a run. *)
Definition accepted (evs : list Inputs) : nat :=
  List.length (filter (fun i => negb (rejected i)) evs).

(** The charts created and not destroyed. *)
Definition live (p : t) : nat := (created p - destroyed p)%nat.

End Page.

(** * Properties *)

(** ** Arithmetic of [num] *)

Lemma Qeq_bool_false (q : Q) : ~ q == 0 -> Qeq_bool q 0 = false.
Proof.
  intros Hq. destruct (Qeq_bool q 0) eqn:E; [|reflexivity].
  apply Qeq_bool_eq in E. contradiction.
Qed.

Lemma div_Num (p q : Q) : ~ q == 0 -> (Num p / Num q)%js = Num (p / q).
Proof. intros Hq. simpl. now rewrite Qeq_bool_false. Qed.

Lemma ltb_Num_true (p q : Q) : (Num p <? Num q)%js = true <-> p < q.
Proof.
  simpl. rewrite negb_true_iff. split.
  - intros E. apply Qnot_le_lt. intros Hle.
    apply Qle_bool_iff in Hle. congruence.
  - intros Hlt. destruct (Qle_bool q p) eqn:E; [|reflexivity].
    apply Qle_bool_iff in E. lra.
Qed.

Lemma ltb_Num_false (p q : Q) : (Num p <? Num q)%js = false <-> q <= p.
Proof.
  simpl. rewrite negb_false_iff. apply Qle_bool_iff.
Qed.

Lemma gtb_Num_true (p q : Q) : (Num p >? Num q)%js = true <-> q < p.
Proof. apply ltb_Num_true. Qed.

Lemma gtb_Num_false (p q : Q) : (Num p >? Num q)%js = false <-> p <= q.
Proof. apply ltb_Num_false. Qed.

Lemma gtb_irrefl (u : num) : (u >? u)%js = false.
Proof. destruct u as [|q]; [reflexivity|]. apply gtb_Num_false. lra. Qed.

Lemma inject_Z_minus_1_nonzero (n : Z) : (2 < n)%Z -> ~ inject_Z n - 1 == 0.
Proof.
  intros Hn E. assert (H2 : inject_Z 2 < inject_Z n) by now rewrite <- Zlt_Qlt.
  change (inject_Z 2) with 2 in H2. lra.
Qed.

(** ** The side-layer loop *)

Lemma sideLoop_spec (h cover barArea : Q) (ny n : Z) :
  ~ inject_Z ny - 1 == 0 ->
  forall (fuel : nat) (i : Z) (acc : list Layer.t),
    (i + Z.of_nat fuel = n + 1)%Z ->
    sideLoop fuel i n (Num cover)
      ((Num h - Num 2 * Num cover) / (ofZ ny - Num 1))%js (Num barArea) acc
    = acc ++ map (fun k => sideLayer h cover barArea ny (i + Z.of_nat k))
               (seq 0 fuel).
Proof.
  intros Hny. induction fuel as [|fuel IH]; intros i acc Hi.
  - simpl. now rewrite app_nil_r.
  - cbn [sideLoop].
    replace (i <=? n)%Z with true by (symmetry; apply Z.leb_le; lia).
    rewrite IH by lia.
    rewrite <- app_assoc. f_equal.
    cbn [seq map app]. rewrite Z.add_0_r. f_equal.
    + unfold sideLayer, ofZ. cbn [sub mul add lift2].
      rewrite div_Num by exact Hny. reflexivity.
    + rewrite <- seq_shift, map_map. apply map_ext. intros k.
      f_equal. lia.
Qed.

(** Once the counter has passed [numSideLayers] the guard ends the loop:
    more fuel changes nothing. *)
Lemma sideLoop_fuel (cover sp barArea : num) (n : Z) :
  forall (fuel extra : nat) (i : Z) (acc : list Layer.t),
    (i + Z.of_nat fuel = n + 1)%Z ->
    sideLoop (fuel + extra) i n cover sp barArea acc
    = sideLoop fuel i n cover sp barArea acc.
Proof.
  induction fuel as [|fuel IH]; intros extra i acc Hi.
  - destruct extra as [|extra]; [reflexivity|]. cbn [Nat.add sideLoop].
    replace (i <=? n)%Z with false by (symmetry; apply Z.leb_gt; lia).
    reflexivity.
  - cbn [Nat.add sideLoop].
    replace (i <=? n)%Z with true by (symmetry; apply Z.leb_le; lia).
    apply IH. lia.
Qed.

Lemma steelLayers_numeric (h cover barArea : Q) (nx ny : Z) :
  steelLayers (Num h) (Num cover) (Num barArea) (Some nx) (Some ny)
  = Layer.mk (Num cover) (Num (inject_Z nx * barArea))
    :: Layer.mk (Num (h - cover)) (Num (inject_Z nx * barArea))
    :: sideLayers h cover barArea ny (Z.to_nat (ny - 2)).
Proof.
  unfold steelLayers. cbn [app ofInt ofZ mul sub lift2].
  destruct (ny >? 2)%Z eqn:E.
  - apply Z.gtb_lt in E.
    rewrite (sideLoop_spec h cover barArea ny (ny - 2))
      by (try apply inject_Z_minus_1_nonzero; lia).
    cbn [app]. do 2 f_equal. unfold sideLayers.
    rewrite <- seq_shift, map_map. apply map_ext. intros k.
    f_equal. lia.
  - assert (Hle : (ny <= 2)%Z).
    { destruct (Z.gtb_spec ny 2); [discriminate | lia]. }
    replace (Z.to_nat (ny - 2)) with O by lia. reflexivity.
Qed.

(** ** Layout of the layers *)

Lemma sideLayers_length (h cover barArea : Q) (ny : Z) (m : nat) :
  length (sideLayers h cover barArea ny m) = m.
Proof. unfold sideLayers. now rewrite length_map, length_seq. Qed.

Lemma sideLayers_nth (h cover barArea : Q) (ny : Z) (m k : nat) :
  (k < m)%nat ->
  nth_error (sideLayers h cover barArea ny m) k
  = Some (sideLayer h cover barArea ny (Z.of_nat (S k))).
Proof.
  intros Hk. unfold sideLayers.
  rewrite nth_error_map, nth_error_seq.
  destruct (Nat.ltb_spec k m) as [_|Hge]; [reflexivity | lia].
Qed.

(** C6: for a valid input the builder yields the top layer (depth [cover],
    area [nx * barArea]), the bottom layer (depth [h - cover], same area) and
    exactly [ny - 2] side layers of area [2 * barArea], the side layer [i]
    (from 1) at depth [cover + i * (h - 2 * cover) / (ny - 1)]; five layers
    for [ny = 5], and no side layer for [ny <= 2]. *)
Theorem steelLayers_layout (fc fy b h cover barArea : Q) (nx ny : Z) :
  invariants fc fy b h cover barArea nx ny ->
  let layers :=
    steelLayers (Num h) (Num cover) (Num barArea) (Some nx) (Some ny) in
  exists sides : list Layer.t,
    layers = Layer.mk (Num cover) (Num (inject_Z nx * barArea))
             :: Layer.mk (Num (h - cover)) (Num (inject_Z nx * barArea))
             :: sides
    /\ Z.of_nat (length sides) = (ny - 2)%Z
    /\ (forall k : Z, (1 <= k <= ny - 2)%Z ->
          exists d a : Q,
            nth_error sides (Z.to_nat (k - 1)) = Some (Layer.mk (Num d) (Num a))
            /\ d == cover + inject_Z k * (h - 2 * cover) / (inject_Z ny - 1)
            /\ a == 2 * barArea)
    /\ (ny = 5%Z -> length layers = 5%nat)
    /\ ((ny <= 2)%Z -> sides = []).
Proof.
  intros Hinv layers.
  destruct Hinv as (_ & _ & _ & _ & _ & _ & _ & _ & Hny).
  exists (sideLayers h cover barArea ny (Z.to_nat (ny - 2))).
  assert (Hlayers : layers
      = Layer.mk (Num cover) (Num (inject_Z nx * barArea))
        :: Layer.mk (Num (h - cover)) (Num (inject_Z nx * barArea))
        :: sideLayers h cover barArea ny (Z.to_nat (ny - 2)))
    by apply steelLayers_numeric.
  split; [exact Hlayers|]. split; [|split; [|split]].
  - rewrite sideLayers_length. lia.
  - intros k Hk.
    exists (cover + inject_Z k * ((h - 2 * cover) / (inject_Z ny - 1))),
           (2 * barArea).
    split; [|split].
    + rewrite sideLayers_nth by lia.
      replace (Z.of_nat (S (Z.to_nat (k - 1)))) with k by lia.
      reflexivity.
    + assert (Hnz : ~ inject_Z ny - 1 == 0)
        by (apply inject_Z_minus_1_nonzero; lia).
      field. exact Hnz.
    + reflexivity.
  - intros ->. rewrite Hlayers. reflexivity.
  - intros Hle. replace (Z.to_nat (ny - 2)) with O by lia. reflexivity.
Qed.

Lemma steelLayers_layout_witness :
  invariants 280 4200 30 50 4 2.85 3 5 /\
  exists sides : list Layer.t,
    steelLayers (Num 50) (Num 4) (Num 2.85) (Some 3%Z) (Some 5%Z)
    = Layer.mk (Num 4) (Num (inject_Z 3 * 2.85))
      :: Layer.mk (Num (50 - 4)) (Num (inject_Z 3 * 2.85)) :: sides
    /\ length sides = 3%nat.
Proof.
  assert (Hinv : invariants 280 4200 30 50 4 2.85 3 5) by check_invariants.
  split; [exact Hinv|].
  destruct (steelLayers_layout 280 4200 30 50 4 2.85 3 5 Hinv)
    as (sides & Hl & Hn & _).
  exists sides. split; [exact Hl | lia].
Defined.

(** ** The driver *)

Lemma sweep_fold (b h fc fy beta1 : num) (layers : list Layer.t) :
  forall (ratios : list num) (pts : list Point.t) (m : num),
    fold_left (sweepStep b h fc fy beta1 layers) ratios (pts, m)
    = (pts ++ map (fun r => calculatePoint (r * h)%js b h fc fy beta1 layers
                              epsilon_cu) ratios,
       runningMax m
         (map (fun r => Point.x (calculatePoint (r * h)%js b h fc fy beta1
                                   layers epsilon_cu)) ratios)).
Proof.
  induction ratios as [|r ratios IH]; intros pts m.
  - simpl. now rewrite app_nil_r.
  - cbn [fold_left map]. unfold sweepStep at 2. rewrite IH.
    rewrite <- app_assoc. reflexivity.
Qed.

(** What an accepted input produces: the pure-compression point, the points
    of the sweep in the order of the ladder, the pure-tension point. *)
Lemma calculateAndDraw_accepted (i : Inputs) :
  rejected i = false ->
  let layers := steelLayers (h i) (cover i) (barArea i) (nx i) (ny i) in
  let Po := pureCompression (fc i) (fy i) (Ag (b i) (h i)) (Ast layers) in
  let Pt := pureTension (fy i) (Ast layers) in
  calculateAndDraw i
  = Some (mkDiagram
            (Point.mk (Num 0) Po
               :: map (sweepPoint i) c_ratios ++ [Point.mk (Num 0) Pt])
            Po
            (runningMax (Num 0)
               (map (fun r => Point.x (sweepPoint i r)) c_ratios))).
Proof.
  intros Hacc layers Po Pt. unfold calculateAndDraw. rewrite Hacc.
  rewrite sweep_fold. reflexivity.
Qed.

Lemma numeric_accepted (fc fy b h cover barArea : Q) (nx ny : Z) :
  rejected (numeric fc fy b h cover barArea nx ny) = false.
Proof. reflexivity. Qed.

(** C9: an input that passes the validation yields exactly 22 points: the
    pure-compression point, one point per ratio of the ladder (20), and the
    pure-tension point. *)
Theorem calculateAndDraw_22_points (i : Inputs) :
  rejected i = false ->
  exists (d : Diagram) (first last : Point.t) (sweep : list Point.t),
    calculateAndDraw i = Some d
    /\ points d = first :: sweep ++ [last]
    /\ first = Point.mk (Num 0) (Po d)
    /\ sweep = map (sweepPoint i) c_ratios
    /\ last = Point.mk (Num 0)
                (pureTension (fy i)
                   (Ast (steelLayers (h i) (cover i) (barArea i) (nx i)
                           (ny i))))
    /\ length sweep = 20%nat
    /\ length (points d) = 22%nat.
Proof.
  intros Hacc. rewrite (calculateAndDraw_accepted i Hacc).
  eexists. eexists. eexists. eexists.
  split; [reflexivity|]. cbn [points Po].
  split; [reflexivity|].
  split; [reflexivity|]. split; [reflexivity|]. split; [reflexivity|].
  split.
  - now rewrite length_map.
  - cbn [length]. rewrite length_app, length_map. reflexivity.
Qed.

Lemma calculateAndDraw_22_points_witness :
  rejected sample = false /\
  exists d : Diagram,
    calculateAndDraw sample = Some d /\ length (points d) = 22%nat.
Proof.
  split; [reflexivity|].
  destruct (calculateAndDraw_22_points sample eq_refl)
    as (d & first & last & sweep & Hd & _ & _ & _ & _ & _ & Hlen).
  exists d. split; [exact Hd | exact Hlen].
Defined.

(** ** Total steel area *)

Lemma Ast_fold_sideLayers (h cover barArea : Q) (ny : Z) :
  forall (m : nat) (s : Q),
  exists s' : Q,
    fold_left (fun sum layer => (sum + Layer.As layer)%js)
      (sideLayers h cover barArea ny m) (Num s) = Num s'
    /\ s' == s + inject_Z (Z.of_nat m) * (2 * barArea).
Proof.
  induction m as [|m IH]; intros s.
  - exists s. split; [reflexivity|]. change (inject_Z (Z.of_nat 0)) with 0.
    ring.
  - destruct (IH s) as (s' & Hs' & Heq).
    exists (s' + 2 * barArea). split.
    + unfold sideLayers in *. rewrite seq_S, map_app, fold_left_app, Hs'.
      reflexivity.
    + rewrite Heq, Nat2Z.inj_succ. unfold Z.succ. rewrite inject_Z_plus.
      change (inject_Z 1) with 1. ring.
Qed.

(** The total area of the layers of a numeric input. *)
Lemma Ast_numeric (h cover barArea : Q) (nx ny : Z) :
  exists ast : Q,
    Ast (steelLayers (Num h) (Num cover) (Num barArea) (Some nx) (Some ny))
    = Num ast
    /\ ast == 2 * inject_Z nx * barArea
              + inject_Z (Z.of_nat (Z.to_nat (ny - 2))) * (2 * barArea).
Proof.
  rewrite steelLayers_numeric.
  destruct (Ast_fold_sideLayers h cover barArea ny (Z.to_nat (ny - 2))
              (0 + inject_Z nx * barArea + inject_Z nx * barArea))
    as (s' & Hs' & Heq).
  exists s'. split; [exact Hs'|]. rewrite Heq. ring.
Qed.

(** C10: for every numeric [ny <= 2], also 0, 1 or a negative value, the
    builder yields just the top and the bottom layer (depths [cover] and
    [h - cover], area [nx * barArea] each), [Ast = 2 * nx * barArea], and
    the diagram is produced. *)
Theorem steelLayers_ny_le_2 (fc fy b h cover barArea : Q) (nx ny : Z) :
  (ny <= 2)%Z ->
  steelLayers (Num h) (Num cover) (Num barArea) (Some nx) (Some ny)
  = [Layer.mk (Num cover) (Num (inject_Z nx * barArea));
     Layer.mk (Num (h - cover)) (Num (inject_Z nx * barArea))]
  /\ (exists ast : Q,
        Ast (steelLayers (Num h) (Num cover) (Num barArea) (Some nx)
               (Some ny)) = Num ast
        /\ ast == 2 * inject_Z nx * barArea)
  /\ (exists d : Diagram,
        calculateAndDraw (numeric fc fy b h cover barArea nx ny) = Some d).
Proof.
  intros Hny. split; [|split].
  - rewrite steelLayers_numeric.
    replace (Z.to_nat (ny - 2)) with O by lia. reflexivity.
  - destruct (Ast_numeric h cover barArea nx ny) as (ast & Hast & Heq).
    exists ast. split; [exact Hast|]. rewrite Heq.
    replace (Z.to_nat (ny - 2)) with O by lia.
    change (inject_Z (Z.of_nat 0)) with 0. ring.
  - rewrite calculateAndDraw_accepted by apply numeric_accepted.
    eexists. reflexivity.
Qed.

Lemma steelLayers_ny_le_2_witness :
  (-1 <= 2)%Z /\
  steelLayers (Num 50) (Num 4) (Num 2.85) (Some 3%Z) (Some (-1)%Z)
  = [Layer.mk (Num 4) (Num (inject_Z 3 * 2.85));
     Layer.mk (Num (50 - 4)) (Num (inject_Z 3 * 2.85))].
Proof.
  split; [lia|].
  apply (steelLayers_ny_le_2 280 4200 30 50 4 2.85 3 (-1)). lia.
Defined.

(** ** The single-point solver *)

Lemma Qdiv_nonneg (a c : Q) : 0 < c -> 0 <= a -> 0 <= a / c.
Proof.
  intros Hc Ha. unfold Qdiv. apply Qmult_le_0_compat; [exact Ha|].
  apply Qinv_le_0_compat. lra.
Qed.

Lemma Qdiv_nonpos (a c : Q) : 0 < c -> a <= 0 -> a / c <= 0.
Proof.
  intros Hc Ha.
  assert (H : 0 <= (- a) / c) by (apply Qdiv_nonneg; lra).
  assert (E : (- a) / c == - (a / c)) by (field; lra).
  lra.
Qed.

(** The steel stress on numbers: it is a number within [-fy, fy], and it has
    the sign of [c - d]. *)
Lemma steelStress_numeric (c d fy : Q) :
  0 <= fy -> 0 < c ->
  exists fs : Q,
    steelStress (Num c) (Num d) (Num fy) epsilon_cu = Num fs
    /\ - fy <= fs <= fy
    /\ (d <= c -> 0 <= fs)
    /\ (c <= d -> fs <= 0).
Proof.
  intros Hfy Hc. unfold steelStress, epsilon_cu, Es.
  cbn [sub mul lift2]. rewrite div_Num by lra. cbn [mul lift2 neg].
  set (fs0 := 2040000 * (0.003 * (c - d) / c)).
  assert (Hpos : d <= c -> 0 <= fs0).
  { intros Hd. unfold fs0.
    assert (H : 0 <= 0.003 * (c - d) / c) by (apply Qdiv_nonneg; lra).
    revert H. generalize (0.003 * (c - d) / c). intros q H. lra. }
  assert (Hneg : c <= d -> fs0 <= 0).
  { intros Hd. unfold fs0.
    assert (H : 0.003 * (c - d) / c <= 0) by (apply Qdiv_nonpos; lra).
    revert H. generalize (0.003 * (c - d) / c). intros q H. lra. }
  destruct (Num fs0 >? Num fy)%js eqn:E1.
  - apply gtb_Num_true in E1.
    destruct (Num fy <? Num (- fy))%js eqn:E2.
    + apply ltb_Num_true in E2. lra.
    + exists fy. split; [reflexivity|].
      repeat split; try lra; intros Hd; specialize (Hneg Hd); lra.
  - apply gtb_Num_false in E1.
    destruct (Num fs0 <? Num (- fy))%js eqn:E2.
    + apply ltb_Num_true in E2. exists (- fy). split; [reflexivity|].
      repeat split; try lra; intros Hd; specialize (Hpos Hd); lra.
    + apply ltb_Num_false in E2. exists fs0. split; [reflexivity|].
      repeat split; auto.
Qed.

(** C8: with [fy > 0], for the depth [d] of any layer and any neutral-axis
    depth [c > 0], the steel stress of the solver,
    [Es * (epsilon_cu * (c - d) / c)] clamped, lies in [[-fy, fy]]. *)
Theorem steelStress_clamped (c d fy : Q) :
  0 < fy -> 0 < c ->
  exists fs : Q,
    steelStress (Num c) (Num d) (Num fy) epsilon_cu = Num fs
    /\ - fy <= fs /\ fs <= fy.
Proof.
  intros Hfy Hc.
  destruct (steelStress_numeric c d fy) as (fs & Hfs & Hb & _); try lra.
  exists fs. split; [exact Hfs | exact Hb].
Qed.

Lemma steelStress_clamped_witness :
  0 < 4200 /\ 0 < 25 /\
  exists fs : Q,
    steelStress (Num 25) (Num 46) (Num 4200) epsilon_cu = Num fs
    /\ - (4200) <= fs /\ fs <= 4200.
Proof.
  split; [reflexivity|]. split; [reflexivity|].
  apply (steelStress_clamped 25 46 4200); reflexivity.
Defined.

(** C7: when [beta1 * c > h] the block depth [a] is [h], in the concrete
    force [C_c = 0.85 * fc * b * a] and in the concrete moment
    [M_c = C_c * (h/2 - a/2)] alike; and for every [c] the depth [a] is not
    above [h]. *)
Theorem blockDepth_capped (c b h fc fy beta1 : num)
    (layers : list Layer.t) :
  ((beta1 * c >? h)%js = true ->
     blockDepth c h beta1 = h
     /\ internalForces c b h fc fy beta1 layers epsilon_cu
        = fold_left (steelStep c h fy epsilon_cu) layers
            ((Num 0 + Num 0.85 * fc * b * h)%js,
             (Num 0 + Num 0.85 * fc * b * h * (h / Num 2 - h / Num 2))%js))
  /\ (blockDepth c h beta1 >? h)%js = false
  /\ internalForces c b h fc fy beta1 layers epsilon_cu
     = fold_left (steelStep c h fy epsilon_cu) layers
         ((Num 0 + Num 0.85 * fc * b * blockDepth c h beta1)%js,
          (Num 0 + Num 0.85 * fc * b * blockDepth c h beta1
                   * (h / Num 2 - blockDepth c h beta1 / Num 2))%js).
Proof.
  split; [|split].
  - intros Hgt.
    assert (Ha : blockDepth c h beta1 = h)
      by (unfold blockDepth; now rewrite Hgt).
    split; [exact Ha|].
    unfold internalForces, concreteMoment, concreteForce. now rewrite Ha.
  - unfold blockDepth. destruct (beta1 * c >? h)%js eqn:E.
    + apply gtb_irrefl.
    + exact E.
  - reflexivity.
Qed.

Lemma blockDepth_capped_witness :
  (Num 0.85 * Num 100 >? Num 50)%js = true /\
  blockDepth (Num 100) (Num 50) (Num 0.85) = Num 50.
Proof.
  split; [reflexivity|].
  apply (blockDepth_capped (Num 100) (Num 30) (Num 50) (Num 280) (Num 4200)
           (Num 0.85) []).
  reflexivity.
Defined.

(** ** Valid inputs give numbers *)

Lemma beta1_numeric (fc : Q) :
  exists beta : Q, beta1 (Num fc) = Num beta /\ 0.65 <= beta <= 0.85.
Proof.
  unfold beta1. destruct (Num fc >? Num 280)%js eqn:E.
  - apply gtb_Num_true in E. cbn [sub mul lift2].
    rewrite div_Num by lra. cbn [sub lift2].
    destruct (Num (0.85 - 0.05 * (fc - 280) / 70) <? Num 0.65)%js eqn:E'.
    + exists 0.65. split; [reflexivity | lra].
    + apply ltb_Num_false in E'. eexists. split; [reflexivity|].
      split; [exact E'|].
      assert (H : 0 <= 0.05 * (fc - 280) / 70) by (apply Qdiv_nonneg; lra).
      revert H. generalize (0.05 * (fc - 280) / 70). intros q H. lra.
  - exists 0.85. split; [reflexivity | lra].
Qed.

Lemma inject_Z_nonneg (n : Z) : (0 <= n)%Z -> 0 <= inject_Z n.
Proof. intros Hn. change 0 with (inject_Z 0). now rewrite <- Zle_Qle. Qed.

Lemma steelLayers_valid (fc fy b h cover barArea : Q) (nx ny : Z) :
  invariants fc fy b h cover barArea nx ny ->
  Forall numericLayer
    (steelLayers (Num h) (Num cover) (Num barArea) (Some nx) (Some ny)).
Proof.
  intros (_ & _ & _ & _ & _ & Hbar & _ & Hnx & _).
  assert (Harea : 0 <= inject_Z nx * barArea).
  { apply Qmult_le_0_compat; [apply inject_Z_nonneg; lia | lra]. }
  rewrite steelLayers_numeric.
  constructor; [eexists; eexists; split; [reflexivity | exact Harea]|].
  constructor; [eexists; eexists; split; [reflexivity | exact Harea]|].
  apply Forall_forall. intros l Hl. unfold sideLayers in Hl.
  apply in_map_iff in Hl. destruct Hl as (k & <- & _).
  eexists. eexists. split; [reflexivity | lra].
Qed.

(** One layer more: the accumulators stay numbers; when the neutral axis is
    at mid-depth the moment does not decrease. *)
Lemma steelStep_numeric (c h fy pn mn : Q) (l : Layer.t) :
  0 <= fy -> 0 < c -> numericLayer l ->
  exists pn' mn' : Q,
    steelStep (Num c) (Num h) (Num fy) epsilon_cu (Num pn, Num mn) l
    = (Num pn', Num mn')
    /\ (c == h / 2 -> mn <= mn').
Proof.
  intros Hfy Hc (d & a & -> & Ha). unfold steelStep. cbn [Layer.y Layer.As].
  destruct (steelStress_numeric c d fy Hfy Hc) as (fs & -> & _ & Hpos & Hneg).
  rewrite div_Num by lra. cbn [add sub mul lift2].
  eexists. eexists. split; [reflexivity|].
  intros Hmid.
  assert (Hm : 0 <= fs * a * (h / 2 - d)).
  { revert Hmid. generalize (h / 2). intros m Hmid.
    destruct (Qlt_le_dec d c) as [Hd|Hd].
    - assert (0 <= fs) by (apply Hpos; lra).
      apply Qmult_le_0_compat; [apply Qmult_le_0_compat; assumption | lra].
    - assert (fs <= 0) by (apply Hneg; lra).
      assert (E : fs * a * (m - d) == (- fs) * a * (d - m)) by ring.
      rewrite E.
      apply Qmult_le_0_compat; [apply Qmult_le_0_compat; lra | lra]. }
  lra.
Qed.

Lemma steel_fold_numeric (c h fy : Q) :
  0 <= fy -> 0 < c ->
  forall layers : list Layer.t,
    Forall numericLayer layers ->
    forall pn mn : Q,
    exists pn' mn' : Q,
      fold_left (steelStep (Num c) (Num h) (Num fy) epsilon_cu) layers
        (Num pn, Num mn) = (Num pn', Num mn')
      /\ (c == h / 2 -> mn <= mn').
Proof.
  intros Hfy Hc. induction layers as [|l layers IH]; intros Hall pn mn.
  - exists pn, mn. split; [reflexivity | lra].
  - inversion Hall as [|? ? Hl Hrest]; subst.
    destruct (steelStep_numeric c h fy pn mn l Hfy Hc Hl)
      as (pn1 & mn1 & Hstep & Hle1).
    destruct (IH Hrest pn1 mn1) as (pn2 & mn2 & Hfold & Hle2).
    exists pn2, mn2. cbn [fold_left]. rewrite Hstep. split; [exact Hfold|].
    intros Hmid. specialize (Hle1 Hmid). specialize (Hle2 Hmid). lra.
Qed.

Lemma blockDepth_numeric (c h beta : Q) :
  exists a : Q,
    blockDepth (Num c) (Num h) (Num beta) = Num a
    /\ (beta * c <= h -> a = beta * c).
Proof.
  unfold blockDepth. cbn [mul lift2].
  destruct (Num (beta * c) >? Num h)%js eqn:E.
  - apply gtb_Num_true in E. exists h. split; [reflexivity|]. lra.
  - exists (beta * c). split; reflexivity.
Qed.

(** The internal forces of the solver on numbers. *)
Lemma internalForces_numeric (c b h fc fy beta : Q)
    (layers : list Layer.t) :
  0 <= fy -> 0 < c -> Forall numericLayer layers ->
  exists pn mn : Q,
    internalForces (Num c) (Num b) (Num h) (Num fc) (Num fy) (Num beta)
      layers epsilon_cu = (Num pn, Num mn)
    /\ (c == h / 2 -> 0 < fc -> 0 < b -> 0 < h -> 0 < beta <= 1 -> 0 < mn).
Proof.
  intros Hfy Hc Hall. unfold internalForces.
  destruct (blockDepth_numeric c h beta) as (a & -> & Ha).
  unfold concreteMoment, concreteForce.
  rewrite !div_Num by lra. cbn [add sub mul lift2].
  destruct (steel_fold_numeric c h fy Hfy Hc layers Hall
              (0 + 0.85 * fc * b * a)
              (0 + 0.85 * fc * b * a * (h / 2 - a / 2)))
    as (pn & mn & -> & Hle).
  exists pn, mn. split; [reflexivity|].
  intros Hmid Hfc Hb Hh Hbeta. specialize (Hle Hmid).
  assert (Hbc : 0 < beta * c) by (apply Qmult_lt_0_compat; lra).
  assert (Hbh : beta * c <= 1 * c) by (apply Qmult_le_compat_r; lra).
  assert (Hch : c == h * (1 # 2)) by (rewrite Hmid; field).
  assert (Hlt : beta * c < h) by lra.
  rewrite (Ha ltac:(lra)) in Hle.
  assert (Hfb : 0 < 0.85 * fc * b)
    by (repeat apply Qmult_lt_0_compat; lra).
  assert (Hcc : 0 < 0.85 * fc * b * (beta * c))
    by (apply Qmult_lt_0_compat; assumption).
  assert (Harm : 0 < h / 2 - beta * c / 2).
  { assert (E : h / 2 - beta * c / 2 == (h - beta * c) * (1 # 2)) by field.
    rewrite E. lra. }
  assert (Hmc : 0 < 0.85 * fc * b * (beta * c) * (h / 2 - beta * c / 2))
    by (apply Qmult_lt_0_compat; assumption).
  revert Hle Hmc.
  generalize (0.85 * fc * b * (beta * c) * (h / 2 - beta * c / 2)).
  intros q Hle Hq. lra.
Qed.

(** The steel stress on the engine: every layer of a valid input, at every depth of
    the sweep. *)
Lemma steelStress_sweep (fc fy b h cover barArea : Q) (nx ny : Z)
    (r : Q) (l : Layer.t) :
  invariants fc fy b h cover barArea nx ny ->
  In r ladder ->
  In l (steelLayers (Num h) (Num cover) (Num barArea) (Some nx) (Some ny)) ->
  exists fs : Q,
    steelStress (Num r * Num h)%js (Layer.y l) (Num fy) epsilon_cu = Num fs
    /\ - fy <= fs /\ fs <= fy.
Proof.
  intros Hinv Hr Hl.
  assert (Hall : Forall numericLayer
            (steelLayers (Num h) (Num cover) (Num barArea) (Some nx)
               (Some ny))).
  { apply (steelLayers_valid fc fy b h cover barArea nx ny Hinv). }
  rewrite Forall_forall in Hall. destruct (Hall l Hl) as (d & a & -> & _).
  destruct Hinv as (_ & Hfy & _ & Hh & _).
  assert (Hq : 0 < r).
  { unfold ladder in Hr. cbn [In] in Hr.
    repeat (destruct Hr as [<-|Hr]; [reflexivity|]). contradiction. }
  assert (Hc : 0 < r * h) by (apply Qmult_lt_0_compat; assumption).
  destruct (steelStress_numeric (r * h) d fy ltac:(lra) Hc)
    as (fs & Hfs & Hb & _).
  exists fs. cbn [Layer.y mul lift2]. split; [exact Hfs | exact Hb].
Qed.

Lemma c_ratios_positive :
  Forall (fun r => exists q : Q, r = Num q /\ 0 < q) c_ratios.
Proof.
  unfold c_ratios. cbn [map].
  repeat (constructor; [eexists; split; [reflexivity | reflexivity]|]).
  constructor.
Qed.

Lemma sweepPoint_of_numeric (qfc qfy qb qh qcover qbarArea : Q)
    (znx zny : Z) (r : num) :
  sweepPoint (numeric qfc qfy qb qh qcover qbarArea znx zny) r
  = calculatePoint (r * Num qh)%js (Num qb) (Num qh) (Num qfc) (Num qfy)
      (beta1 (Num qfc))
      (steelLayers (Num qh) (Num qcover) (Num qbarArea) (Some znx)
         (Some zny))
      epsilon_cu.
Proof. reflexivity. Qed.

(** A point of the sweep, for a valid input: the internal force over 1000
    and the internal moment over 100000. *)
Lemma sweepPoint_numeric (fc fy b h cover barArea : Q) (nx ny : Z) (q : Q) :
  invariants fc fy b h cover barArea nx ny -> 0 < q ->
  exists pn mn : Q,
    internalForces (Num q * Num h)%js (Num b) (Num h) (Num fc) (Num fy)
      (beta1 (Num fc))
      (steelLayers (Num h) (Num cover) (Num barArea) (Some nx) (Some ny))
      epsilon_cu = (Num pn, Num mn)
    /\ sweepPoint (numeric fc fy b h cover barArea nx ny) (Num q)
       = Point.mk (Num (mn / 100000)) (Num (pn / 1000))
    /\ (q == 1 # 2 -> 0 < mn / 100000).
Proof.
  intros Hinv Hq.
  assert (Hall := steelLayers_valid _ _ _ _ _ _ _ _ Hinv).
  destruct Hinv as (Hfc & Hfy & Hb & Hh & _).
  destruct (beta1_numeric fc) as (beta & Hbeta & Hrange).
  assert (Hc : 0 < q * h) by (apply Qmult_lt_0_compat; assumption).
  destruct (internalForces_numeric (q * h) b h fc fy beta _
              ltac:(lra) Hc Hall) as (pn & mn & Hint & Hpos).
  exists pn, mn. rewrite sweepPoint_of_numeric. unfold calculatePoint.
  rewrite Hbeta. cbn [mul lift2]. rewrite Hint.
  rewrite !div_Num by lra.
  split; [reflexivity|]. split; [reflexivity|].
  intros Hhalf.
  assert (Hmn : 0 < mn).
  { apply Hpos; try lra. rewrite Hhalf. field. }
  assert (E : mn / 100000 == mn * (1 # 100000)) by field.
  rewrite E. lra.
Qed.

(** ** The running maximum *)

Lemma runningMax_spec (xs : list num) :
  Forall (fun x => exists q : Q, x = Num q) xs ->
  forall m0 : Q,
  exists m : Q,
    runningMax (Num m0) xs = Num m
    /\ m0 <= m
    /\ Forall (fun x => le x (Num m)) xs
    /\ (runningMax (Num m0) xs = Num m0 \/ In (runningMax (Num m0) xs) xs).
Proof.
  induction xs as [|x xs IH]; intros Hall m0.
  - exists m0. cbn. repeat split; [lra | constructor | now left].
  - inversion Hall as [|? ? (q & ->) Hrest]; subst.
    unfold runningMax. cbn [fold_left]. fold (runningMax).
    destruct (Num q >? Num m0)%js eqn:E.
    + apply gtb_Num_true in E.
      destruct (IH Hrest q) as (m & Hm & Hle & Hfor & Hin).
      fold (runningMax (Num q) xs). exists m. rewrite Hm in *.
      split; [reflexivity|]. split; [lra|]. split.
      * constructor; [exact Hle | exact Hfor].
      * right. destruct Hin as [Hin|Hin]; [left; now symmetry | now right].
    + apply gtb_Num_false in E.
      destruct (IH Hrest m0) as (m & Hm & Hle & Hfor & Hin).
      fold (runningMax (Num m0) xs). exists m. rewrite Hm in *.
      split; [reflexivity|]. split; [exact Hle|]. split.
      * constructor; [cbn; lra | exact Hfor].
      * destruct Hin as [Hin|Hin]; [now left | right; now right].
Qed.

(** ** The end points *)

Lemma pureCompression_numeric (fc fy b h ast : Q) :
  pureCompression (Num fc) (Num fy) (Ag (Num b) (Num h)) (Num ast)
  = Num ((0.85 * fc * (b * h - ast) + fy * ast) / 1000).
Proof. reflexivity. Qed.

Lemma pureTension_numeric (fy ast : Q) :
  pureTension (Num fy) (Num ast) = Num (- fy * ast / 1000).
Proof. reflexivity. Qed.

Lemma Ast_valid (h cover barArea : Q) (nx ny : Z) :
  (2 <= ny)%Z ->
  exists ast : Q,
    Ast (steelLayers (Num h) (Num cover) (Num barArea) (Some nx) (Some ny))
    = Num ast
    /\ ast == 2 * inject_Z nx * barArea + inject_Z (ny - 2) * (2 * barArea).
Proof.
  intros Hny. destruct (Ast_numeric h cover barArea nx ny) as (ast & H & E).
  exists ast. split; [exact H|]. rewrite E.
  now replace (Z.of_nat (Z.to_nat (ny - 2))) with (ny - 2)%Z by lia.
Qed.

Lemma calculateAndDraw_numeric (qfc qfy qb qh qcover qbarArea : Q)
    (znx zny : Z) :
  let i := numeric qfc qfy qb qh qcover qbarArea znx zny in
  let layers :=
    steelLayers (Num qh) (Num qcover) (Num qbarArea) (Some znx) (Some zny) in
  let Po := pureCompression (Num qfc) (Num qfy) (Ag (Num qb) (Num qh))
              (Ast layers) in
  let Pt := pureTension (Num qfy) (Ast layers) in
  calculateAndDraw i
  = Some (mkDiagram
            (Point.mk (Num 0) Po
               :: map (sweepPoint i) c_ratios ++ [Point.mk (Num 0) Pt])
            Po
            (runningMax (Num 0)
               (map (fun r => Point.x (sweepPoint i r)) c_ratios))).
Proof.
  intros i layers Po Pt.
  exact (calculateAndDraw_accepted i
           (numeric_accepted qfc qfy qb qh qcover qbarArea znx zny)).
Qed.

(** C4: for a valid input the first point is [(M = 0, P = Po)], where [Po]
    is [0.85 * fc * (Ag - Ast) + fy * Ast] over 1000, with [Ag = b * h] and
    [Ast] the sum of the areas of the layers of the builder. *)
Theorem first_point_pure_compression (fc fy b h cover barArea : Q)
    (nx ny : Z) :
  invariants fc fy b h cover barArea nx ny ->
  exists (d : Diagram) (ast : Q),
    calculateAndDraw (numeric fc fy b h cover barArea nx ny) = Some d
    /\ Ast (steelLayers (Num h) (Num cover) (Num barArea) (Some nx)
              (Some ny)) = Num ast
    /\ ast == 2 * inject_Z nx * barArea + inject_Z (ny - 2) * (2 * barArea)
    /\ Po d = Num ((0.85 * fc * (b * h - ast) + fy * ast) / 1000)
    /\ hd_error (points d) = Some (Point.mk (Num 0) (Po d)).
Proof.
  intros Hinv.
  destruct Hinv as (_ & _ & _ & _ & _ & _ & _ & _ & Hny).
  destruct (Ast_valid h cover barArea nx ny Hny) as (ast & Hast & Heq).
  rewrite calculateAndDraw_numeric. eexists. exists ast.
  split; [reflexivity|]. split; [exact Hast|]. split; [exact Heq|].
  cbn [Po points hd_error]. rewrite Hast.
  split; [apply pureCompression_numeric | reflexivity].
Qed.

Lemma first_point_pure_compression_witness :
  invariants 280 4200 30 50 4 2.85 3 3 /\
  exists (d : Diagram) (ast : Q),
    calculateAndDraw sample = Some d
    /\ ast == 22.8
    /\ Po d = Num ((0.85 * 280 * (30 * 50 - ast) + 4200 * ast) / 1000)
    /\ hd_error (points d) = Some (Point.mk (Num 0) (Po d)).
Proof.
  assert (Hinv : invariants 280 4200 30 50 4 2.85 3 3) by check_invariants.
  split; [exact Hinv|].
  destruct (first_point_pure_compression 280 4200 30 50 4 2.85 3 3 Hinv)
    as (d & ast & Hd & _ & Heq & HPo & Hhd).
  exists d, ast. split; [exact Hd|]. split; [|split; assumption].
  rewrite Heq. reflexivity.
Defined.

(** C5: for a valid input the last point is [(M = 0, P = Pt)], where [Pt]
    is [- fy * Ast] over 1000, with [Ast] the sum of the areas of the layers
    of the builder. *)
Theorem last_point_pure_tension (fc fy b h cover barArea : Q) (nx ny : Z) :
  invariants fc fy b h cover barArea nx ny ->
  exists (d : Diagram) (ast : Q),
    calculateAndDraw (numeric fc fy b h cover barArea nx ny) = Some d
    /\ Ast (steelLayers (Num h) (Num cover) (Num barArea) (Some nx)
              (Some ny)) = Num ast
    /\ ast == 2 * inject_Z nx * barArea + inject_Z (ny - 2) * (2 * barArea)
    /\ last (points d) (Point.mk NaN NaN)
       = Point.mk (Num 0) (Num (- fy * ast / 1000)).
Proof.
  intros Hinv.
  destruct Hinv as (_ & _ & _ & _ & _ & _ & _ & _ & Hny).
  destruct (Ast_valid h cover barArea nx ny Hny) as (ast & Hast & Heq).
  rewrite calculateAndDraw_numeric. eexists. exists ast.
  split; [reflexivity|]. split; [exact Hast|]. split; [exact Heq|].
  cbn [points]. rewrite Hast, pureTension_numeric.
  change (Point.mk (Num 0) (pureCompression (Num fc) (Num fy)
                              (Ag (Num b) (Num h)) (Num ast))
          :: map (sweepPoint (numeric fc fy b h cover barArea nx ny)) c_ratios
          ++ [Point.mk (Num 0) (Num (- fy * ast / 1000))])
    with ((Point.mk (Num 0) (pureCompression (Num fc) (Num fy)
                               (Ag (Num b) (Num h)) (Num ast))
           :: map (sweepPoint (numeric fc fy b h cover barArea nx ny))
                c_ratios)
          ++ [Point.mk (Num 0) (Num (- fy * ast / 1000))]).
  apply last_last.
Qed.

Lemma last_point_pure_tension_witness :
  invariants 280 4200 30 50 4 2.85 3 3 /\
  exists (d : Diagram) (ast : Q),
    calculateAndDraw sample = Some d
    /\ ast == 22.8
    /\ last (points d) (Point.mk NaN NaN)
       = Point.mk (Num 0) (Num (- (4200) * ast / 1000)).
Proof.
  assert (Hinv : invariants 280 4200 30 50 4 2.85 3 3) by check_invariants.
  split; [exact Hinv|].
  destruct (last_point_pure_tension 280 4200 30 50 4 2.85 3 3 Hinv)
    as (d & ast & Hd & _ & Heq & Hlast).
  exists d, ast. split; [exact Hd|]. split; [|exact Hlast].
  rewrite Heq. reflexivity.
Defined.

(** ** Order of the points *)

Lemma c_ratios_ladder : c_ratios = map Num ladder.
Proof. reflexivity. Qed.

Lemma ladder_positive (r : Q) : In r ladder -> 0 < r.
Proof.
  intros Hr. assert (Hin : In (Num r) c_ratios).
  { rewrite c_ratios_ladder. now apply in_map. }
  pose proof c_ratios_positive as Hall. rewrite Forall_forall in Hall.
  destruct (Hall _ Hin) as (q & E & Hq). injection E as ->. exact Hq.
Qed.

Lemma ladder_descending : StronglySorted (fun p q : Q => q < p) ladder.
Proof.
  unfold ladder.
  repeat (constructor; [|repeat (constructor; [reflexivity|]); constructor]).
  constructor.
Qed.

(** C3: for a valid input the points are, in this order, the
    pure-compression point, the results of the solver for the ratios of the
    ladder from 2.0 down to 0.05, and the pure-tension point; the axial
    value of each point is the internal force over 1000 and its moment the
    internal moment over 100000. *)
Theorem points_in_ladder_order (fc fy b h cover barArea : Q) (nx ny : Z) :
  invariants fc fy b h cover barArea nx ny ->
  let i := numeric fc fy b h cover barArea nx ny in
  exists (d : Diagram) (ast : Q),
    calculateAndDraw i = Some d
    /\ Ast (steelLayers (Num h) (Num cover) (Num barArea) (Some nx)
              (Some ny)) = Num ast
    /\ points d
       = Point.mk (Num 0)
           (Num ((0.85 * fc * (b * h - ast) + fy * ast) / 1000))
         :: map (fun r : Q => sweepPoint i (Num r)) ladder
         ++ [Point.mk (Num 0) (Num (- fy * ast / 1000))]
    /\ hd_error ladder = Some 2.0
    /\ last ladder 0 = 0.05
    /\ StronglySorted (fun p q : Q => q < p) ladder
    /\ (forall r : Q, In r ladder ->
          exists pn mn : Q,
            internalForces (Num r * Num h)%js (Num b) (Num h) (Num fc)
              (Num fy) (beta1 (Num fc))
              (steelLayers (Num h) (Num cover) (Num barArea) (Some nx)
                 (Some ny))
              epsilon_cu = (Num pn, Num mn)
            /\ sweepPoint i (Num r)
               = Point.mk (Num (mn / 100000)) (Num (pn / 1000))).
Proof.
  intros Hinv i.
  assert (Hny : (2 <= ny)%Z) by (unfold invariants in Hinv; tauto).
  destruct (Ast_valid h cover barArea nx ny Hny) as (ast & Hast & _).
  unfold i. rewrite calculateAndDraw_numeric. eexists. exists ast.
  split; [reflexivity|]. split; [exact Hast|]. cbn [points].
  rewrite Hast, pureCompression_numeric, pureTension_numeric.
  rewrite c_ratios_ladder, map_map.
  split; [reflexivity|]. split; [reflexivity|]. split; [reflexivity|].
  split; [exact ladder_descending|].
  intros r Hr.
  destruct (sweepPoint_numeric fc fy b h cover barArea nx ny r Hinv
              (ladder_positive r Hr)) as (pn & mn & Hint & Hpt & _).
  exists pn, mn. split; assumption.
Qed.

Lemma points_in_ladder_order_witness :
  invariants 280 4200 30 50 4 2.85 3 3 /\
  exists (d : Diagram) (p0 pt : Point.t),
    calculateAndDraw sample = Some d
    /\ points d
       = p0 :: map (fun r : Q => sweepPoint sample (Num r)) ladder ++ [pt].
Proof.
  assert (Hinv : invariants 280 4200 30 50 4 2.85 3 3) by check_invariants.
  split; [exact Hinv|].
  destruct (points_in_ladder_order 280 4200 30 50 4 2.85 3 3 Hinv)
    as (d & ast & Hd & _ & Hpts & _).
  exists d. eexists. eexists. split; [exact Hd | exact Hpts].
Defined.

(** ** The summary moment *)

(** C2: for a valid input [Mo_approx] is the greatest moment among the 20
    points of the sweep, the two end points left out. *)
Theorem Mo_approx_greatest (fc fy b h cover barArea : Q) (nx ny : Z) :
  invariants fc fy b h cover barArea nx ny ->
  let i := numeric fc fy b h cover barArea nx ny in
  exists (d : Diagram) (p0 pt : Point.t) (sweep : list Point.t),
    calculateAndDraw i = Some d
    /\ points d = p0 :: sweep ++ [pt]
    /\ sweep = map (sweepPoint i) c_ratios
    /\ length sweep = 20%nat
    /\ greatest (Mo_approx d) (map Point.x sweep).
Proof.
  intros Hinv i. unfold i. rewrite calculateAndDraw_numeric.
  eexists. eexists. eexists. eexists.
  split; [reflexivity|]. cbn [points Mo_approx].
  split; [reflexivity|]. split; [reflexivity|].
  split; [now rewrite length_map|].
  rewrite map_map.
  set (xs := map (fun r => Point.x (sweepPoint
                   (numeric fc fy b h cover barArea nx ny) r)) c_ratios).
  assert (Hnum : Forall (fun x => exists q : Q, x = Num q) xs).
  { apply Forall_forall. intros x Hx. apply in_map_iff in Hx.
    destruct Hx as (r & <- & Hr).
    pose proof c_ratios_positive as Hall. rewrite Forall_forall in Hall.
    destruct (Hall r Hr) as (q & -> & Hq).
    destruct (sweepPoint_numeric fc fy b h cover barArea nx ny q Hinv Hq)
      as (pn & mn & _ & -> & _).
    eexists. reflexivity. }
  destruct (runningMax_spec xs Hnum 0) as (m & Hm & Hle & Hfor & Hin).
  unfold greatest. split.
  - destruct Hin as [Hzero|Hin]; [|exact Hin]. exfalso.
    destruct (sweepPoint_numeric fc fy b h cover barArea nx ny 0.5 Hinv
                ltac:(reflexivity)) as (pn & mn & _ & Hpt & Hpos).
    assert (Hmem : In (Num (mn / 100000)) xs).
    { unfold xs. apply in_map_iff. exists (Num 0.5). rewrite Hpt.
      split; [reflexivity|]. unfold c_ratios. cbn [map In]. tauto. }
    rewrite Forall_forall in Hfor. specialize (Hfor _ Hmem).
    rewrite Hm in Hzero. injection Hzero as ->. cbn [le] in Hfor.
    specialize (Hpos ltac:(reflexivity)). lra.
  - rewrite Hm. exact Hfor.
Qed.

Lemma Mo_approx_greatest_witness :
  invariants 280 4200 30 50 4 2.85 3 3 /\
  exists (d : Diagram) (sweep : list Point.t),
    calculateAndDraw sample = Some d
    /\ sweep = map (sweepPoint sample) c_ratios
    /\ greatest (Mo_approx d) (map Point.x sweep).
Proof.
  assert (Hinv : invariants 280 4200 30 50 4 2.85 3 3) by check_invariants.
  split; [exact Hinv|].
  destruct (Mo_approx_greatest 280 4200 30 50 4 2.85 3 3 Hinv)
    as (d & p0 & pt & sweep & Hd & _ & Hsweep & _ & Hmax).
  exists d, sweep. split; [exact Hd|]. split; [exact Hsweep | exact Hmax].
Defined.

(** ** Validation *)

(** C1, as the code has it: [ny = 1] breaks the invariant [ny >= 2], and
    the diagram is drawn all the same. *)
Lemma invalid_input_still_drawn :
  ~ Valid oneSideBar
  /\ exists d : Diagram,
       calculateAndDraw oneSideBar = Some d /\ length (points d) = 22%nat.
Proof.
  split.
  - intros (qfc & qfy & qb & qh & qcover & qbarArea & znx & zny & E & Hinv).
    unfold oneSideBar, numeric in E. injection E as _ _ _ _ _ _ _ Hny.
    unfold invariants in Hinv.
    destruct Hinv as (_ & _ & _ & _ & _ & _ & _ & _ & Hle). lia.
  - unfold oneSideBar. rewrite calculateAndDraw_numeric. eexists.
    split; [reflexivity|]. cbn [points length].
    rewrite length_app, length_map. reflexivity.
Qed.

(** C1, amended: an input in which one of [fc], [fy], [b], [h], [cover],
    [nx], [ny] is not a number yields no diagram; an input whose eight
    fields are numbers yields a diagram of 22 points, whether or not it
    satisfies the invariants. *)
Theorem calculateAndDraw_validation (i : Inputs) :
  (isNaN (fc i) = true \/ isNaN (fy i) = true \/ isNaN (b i) = true
   \/ isNaN (h i) = true \/ isNaN (cover i) = true
   \/ nx i = None \/ ny i = None ->
   calculateAndDraw i = None)
  /\ ((exists (qfc qfy qb qh qcover qbarArea : Q) (znx zny : Z),
         i = numeric qfc qfy qb qh qcover qbarArea znx zny) ->
      exists d : Diagram,
        calculateAndDraw i = Some d /\ length (points d) = 22%nat).
Proof.
  split.
  - intros Hnan. assert (Hrej : rejected i = true).
    { unfold rejected.
      destruct Hnan as [H|[H|[H|[H|[H|[H|H]]]]]]; rewrite H; cbn [ofInt isNaN];
        repeat rewrite orb_true_r; reflexivity. }
    unfold calculateAndDraw. now rewrite Hrej.
  - intros (qfc & qfy & qb & qh & qcover & qbarArea & znx & zny & ->).
    rewrite calculateAndDraw_numeric. eexists.
    split; [reflexivity|]. cbn [points length].
    rewrite length_app, length_map. reflexivity.
Qed.

Lemma calculateAndDraw_validation_witness :
  isNaN (fc noStrength) = true /\ calculateAndDraw noStrength = None.
Proof.
  split; [reflexivity|].
  apply (calculateAndDraw_validation noStrength). left. reflexivity.
Defined.

(** [barArea] is not among the fields the validation tests: when it alone is
    not a number the 22 points are still produced, with [Po] not a number. *)
Lemma noBarArea_drawn :
  isNaN (barArea noBarArea) = true
  /\ exists d : Diagram,
       calculateAndDraw noBarArea = Some d
       /\ length (points d) = 22%nat
       /\ Po d = NaN.
Proof.
  split; [reflexivity|].
  rewrite calculateAndDraw_accepted by reflexivity. eexists.
  split; [reflexivity|]. cbn [points Po length].
  rewrite length_app, length_map. split; reflexivity.
Qed.

(** * Further properties of the engine *)

(** ** The stress-block factor *)

(** X1: [beta1] is 0.85 up to [fc = 280], falls by 0.05 per 70 above it, and
    stays at 0.65 from [fc = 560] on; it never leaves [[0.65, 0.85]].  When
    [fc] is not a number the comparison fails and 0.85 is kept. *)
Theorem beta1_piecewise (qfc : Q) :
  beta1 NaN = Num 0.85
  /\ exists beta : Q,
       beta1 (Num qfc) = Num beta
       /\ 0.65 <= beta <= 0.85
       /\ (qfc <= 280 -> beta == 0.85)
       /\ (280 <= qfc <= 560 -> beta == 0.85 - 0.05 * (qfc - 280) / 70)
       /\ (560 <= qfc -> beta == 0.65).
Proof.
  split; [reflexivity|].
  assert (Hlin : 0.05 * (qfc - 280) / 70 == (qfc - 280) * (1 # 1400))
    by field.
  unfold beta1. destruct (Num qfc >? Num 280)%js eqn:E.
  - apply gtb_Num_true in E. cbn [sub mul lift2].
    rewrite div_Num by lra. cbn [sub lift2].
    destruct (Num (0.85 - 0.05 * (qfc - 280) / 70) <? Num 0.65)%js eqn:E'.
    + apply ltb_Num_true in E'. rewrite Hlin in E'.
      exists 0.65. split; [reflexivity|].
      repeat split; lra.
    + apply ltb_Num_false in E'. eexists. split; [reflexivity|].
      rewrite Hlin in *. repeat split; try lra.
  - apply gtb_Num_false in E. exists 0.85. split; [reflexivity|].
    rewrite Hlin. repeat split; try lra.
Qed.

Lemma beta1_piecewise_witness :
  exists beta : Q, beta1 (Num 350) = Num beta /\ beta == 0.8.
Proof.
  destruct (beta1_piecewise 350) as (_ & beta & Hb & _ & _ & Hmid & _).
  exists beta. split; [exact Hb|]. rewrite Hmid.
  - reflexivity.
  - split; discriminate.
Defined.

(** ** Geometry of the layers *)

Lemma spacing_positive (h cover : Q) (ny : Z) :
  2 * cover < h -> (2 < ny)%Z ->
  0 < (h - 2 * cover) / (inject_Z ny - 1).
Proof.
  intros Hc Hny.
  assert (H2 : inject_Z 2 < inject_Z ny) by now rewrite <- Zlt_Qlt.
  change (inject_Z 2) with 2 in H2.
  unfold Qdiv. apply Qmult_lt_0_compat; [lra|].
  apply Qinv_lt_0_compat. lra.
Qed.

Lemma sideDepth_bounds (h cover : Q) (ny k : Z) :
  2 * cover < h -> (1 <= k <= ny - 2)%Z ->
  cover < cover + inject_Z k * ((h - 2 * cover) / (inject_Z ny - 1))
  /\ cover + inject_Z k * ((h - 2 * cover) / (inject_Z ny - 1)) < h - cover.
Proof.
  intros Hc Hk.
  assert (Hs := spacing_positive h cover ny Hc ltac:(lia)).
  assert (Hk1 : inject_Z 1 <= inject_Z k) by (rewrite <- Zle_Qle; lia).
  assert (Hk2 : inject_Z k < inject_Z (ny - 1)) by (rewrite <- Zlt_Qlt; lia).
  unfold Z.sub in Hk2. rewrite inject_Z_plus in Hk2.
  change (inject_Z 1) with 1 in Hk1. change (inject_Z (- (1))) with (- (1)) in Hk2.
  assert (Hfull : (inject_Z ny - 1) * ((h - 2 * cover) / (inject_Z ny - 1))
                  == h - 2 * cover) by (field; lra).
  revert Hs Hfull. generalize ((h - 2 * cover) / (inject_Z ny - 1)).
  intros s Hs Hfull.
  assert (Hlo : 0 < inject_Z k * s) by (apply Qmult_lt_0_compat; lra).
  assert (Hhi : inject_Z k * s < (inject_Z ny - 1) * s)
    by (apply Qmult_lt_compat_r; lra).
  lra.
Qed.

Lemma sideLayers_inside (h cover barArea : Q) (ny : Z) :
  0 < barArea -> 2 * cover < h ->
  Forall (fun l : Layer.t =>
            exists d a : Q,
              l = Layer.mk (Num d) (Num a)
              /\ cover < d < h - cover /\ 0 < a)
    (sideLayers h cover barArea ny (Z.to_nat (ny - 2))).
Proof.
  intros Hbar Hc. apply Forall_forall. intros l Hl. unfold sideLayers in Hl.
  apply in_map_iff in Hl. destruct Hl as (k & <- & Hk).
  apply in_seq in Hk.
  destruct (sideDepth_bounds h cover ny (Z.of_nat k) Hc ltac:(lia))
    as (Hlo & Hhi).
  eexists. eexists. split; [reflexivity|]. repeat split; lra.
Qed.

(** X2: for a valid input every layer lies inside the section, between the
    two covers, and has a positive area. *)
Theorem layers_inside_section (fc fy b h cover barArea : Q) (nx ny : Z) :
  invariants fc fy b h cover barArea nx ny ->
  Forall (fun l : Layer.t =>
            exists d a : Q,
              l = Layer.mk (Num d) (Num a)
              /\ cover <= d <= h - cover /\ 0 < d < h /\ 0 < a)
    (steelLayers (Num h) (Num cover) (Num barArea) (Some nx) (Some ny)).
Proof.
  intros (_ & _ & _ & Hh & Hcover & Hbar & Hc & Hnx & Hny).
  assert (Harea : 0 < inject_Z nx * barArea).
  { apply Qmult_lt_0_compat; [|lra].
    assert (H1 : inject_Z 1 <= inject_Z nx) by (rewrite <- Zle_Qle; lia).
    change (inject_Z 1) with 1 in H1. lra. }
  rewrite steelLayers_numeric.
  constructor; [eexists; eexists; split; [reflexivity|]; repeat split; lra|].
  constructor; [eexists; eexists; split; [reflexivity|]; repeat split; lra|].
  pose proof (sideLayers_inside h cover barArea ny Hbar Hc) as Hsides.
  revert Hsides. apply Forall_impl.
  intros l (d & a & -> & (Hlo & Hhi) & Ha).
  exists d, a. split; [reflexivity|]. repeat split; lra.
Qed.

Lemma layers_inside_section_witness :
  invariants 280 4200 30 50 4 2.85 3 5 /\
  Forall (fun l : Layer.t =>
            exists d a : Q,
              l = Layer.mk (Num d) (Num a)
              /\ 4 <= d <= 50 - 4 /\ 0 < d < 50 /\ 0 < a)
    (steelLayers (Num 50) (Num 4) (Num 2.85) (Some 3%Z) (Some 5%Z)).
Proof.
  assert (Hinv : invariants 280 4200 30 50 4 2.85 3 5) by check_invariants.
  split; [exact Hinv|].
  exact (layers_inside_section 280 4200 30 50 4 2.85 3 5 Hinv).
Defined.



(** ** The summary moment of any accepted input *)

Lemma runningMax_any (xs : list num) :
  forall m0 : Q,
  exists m : Q,
    runningMax (Num m0) xs = Num m
    /\ m0 <= m
    /\ (forall q : Q, In (Num q) xs -> q <= m)
    /\ (runningMax (Num m0) xs = Num m0 \/ In (runningMax (Num m0) xs) xs).
Proof.
  induction xs as [|x xs IH]; intros m0.
  - exists m0. cbn. repeat split; [lra | contradiction | now left].
  - unfold runningMax. cbn [fold_left].
    destruct (x >? Num m0)%js eqn:E.
    + destruct x as [|q]; [discriminate|]. apply gtb_Num_true in E.
      fold (runningMax (Num q) xs).
      destruct (IH q) as (m & Hm & Hle & Hall & Hin).
      exists m. rewrite Hm in *. split; [reflexivity|]. split; [lra|]. split.
      * intros q' [Hq'|Hq']; [injection Hq' as <-; exact Hle | now apply Hall].
      * right. destruct Hin as [Hin|Hin]; [left; now symmetry | now right].
    + fold (runningMax (Num m0) xs).
      destruct (IH m0) as (m & Hm & Hle & Hall & Hin).
      exists m. rewrite Hm in *. split; [reflexivity|]. split; [exact Hle|].
      split.
      * intros q' [Hq'|Hq']; [|now apply Hall]. subst x.
        apply gtb_Num_false in E. lra.
      * destruct Hin as [Hin|Hin]; [now left | right; now right].
Qed.

(** X4: for every accepted input [Mo_approx] is a number, not below zero and not
    below any numeric moment of the sweep; it is either the initial 0 or the
    moment of a point of the sweep.  A moment that is not a number never
    enters it. *)
Theorem Mo_approx_never_negative (i : Inputs) :
  rejected i = false ->
  exists (d : Diagram) (m : Q),
    calculateAndDraw i = Some d
    /\ Mo_approx d = Num m
    /\ 0 <= m
    /\ (forall (r : num) (q : Q),
          In r c_ratios -> Point.x (sweepPoint i r) = Num q -> q <= m)
    /\ (Mo_approx d = Num 0
        \/ exists r : num,
             In r c_ratios /\ Mo_approx d = Point.x (sweepPoint i r)).
Proof.
  intros Hacc. rewrite (calculateAndDraw_accepted i Hacc).
  set (xs := map (fun r => Point.x (sweepPoint i r)) c_ratios).
  destruct (runningMax_any xs 0) as (m & Hm & Hle & Hall & Hin).
  eexists. exists m. split; [reflexivity|]. cbn [Mo_approx].
  split; [exact Hm|]. split; [exact Hle|]. split.
  - intros r q Hr Hq. apply Hall. rewrite <- Hq. unfold xs.
    now apply (in_map (fun r => Point.x (sweepPoint i r))).
  - destruct Hin as [Hin|Hin]; [now left|]. right.
    unfold xs in Hin at 2. apply in_map_iff in Hin.
    destruct Hin as (r & Hr & Hrin). exists r. split; [exact Hrin|].
    now symmetry.
Qed.

Lemma Mo_approx_never_negative_witness :
  rejected noBarArea = false /\
  exists (d : Diagram) (m : Q),
    calculateAndDraw noBarArea = Some d /\ Mo_approx d = Num m /\ 0 <= m.
Proof.
  split; [reflexivity|].
  destruct (Mo_approx_never_negative noBarArea eq_refl)
    as (d & m & Hd & Hm & Hle & _).
  exists d, m. split; [exact Hd|]. split; [exact Hm | exact Hle].
Defined.

(** ** A bar area that is not a number *)

Lemma add_NaN_r (u : num) : (u + NaN)%js = NaN.
Proof. now destruct u. Qed.

Lemma mul_NaN_r (u : num) : (u * NaN)%js = NaN.
Proof. now destruct u. Qed.

Lemma sideLoop_prefix (cover sp barArea : num) (n : Z) :
  forall (fuel : nat) (i : Z) (acc : list Layer.t),
  exists tail : list Layer.t,
    sideLoop fuel i n cover sp barArea acc = acc ++ tail.
Proof.
  induction fuel as [|fuel IH]; intros i acc.
  - exists []. cbn. now rewrite app_nil_r.
  - cbn [sideLoop]. destruct (i <=? n)%Z.
    + destruct (IH (i + 1)%Z
                  (acc ++ [Layer.mk (cover + ofZ i * sp)%js
                             (sideBarsPerLayer * barArea)%js]))
        as (tail & ->).
      eexists. rewrite <- app_assoc. reflexivity.
    + exists []. now rewrite app_nil_r.
Qed.

(** The top layer is always the first layer. *)
Lemma steelLayers_head (h cover barArea : num) (nx ny : option Z) :
  exists rest : list Layer.t,
    steelLayers h cover barArea nx ny
    = Layer.mk cover (ofInt nx * barArea)%js :: rest.
Proof.
  unfold steelLayers. cbn [app].
  destruct ny as [n|]; [|eexists; reflexivity].
  destruct (n >? 2)%Z; [|eexists; reflexivity].
  match goal with
  | |- context [sideLoop ?f ?i ?m ?c ?s ?a ?acc] =>
      destruct (sideLoop_prefix c s a m f i acc) as (tail & ->)
  end.
  eexists. reflexivity.
Qed.

Lemma Ast_NaN_fold (layers : list Layer.t) :
  fold_left (fun sum layer => (sum + Layer.As layer)%js) layers NaN = NaN.
Proof. induction layers as [|l layers IH]; [reflexivity | exact IH]. Qed.

Lemma steel_fold_NaN (c h fy eps : num) (layers : list Layer.t) :
  fold_left (steelStep c h fy eps) layers (NaN, NaN) = (NaN, NaN).
Proof. induction layers as [|l layers IH]; [reflexivity | exact IH]. Qed.

Lemma runningMax_all_NaN (xs : list num) (m : num) :
  Forall (fun x => x = NaN) xs -> runningMax m xs = m.
Proof.
  induction 1 as [|x xs Hx _ IH]; [reflexivity|]. subst x.
  unfold runningMax in *. cbn [fold_left]. destruct m; exact IH.
Qed.

(** X5: when [barArea] is not a number and the other fields pass the
    validation, the diagram is still produced: [Po], the axial value of
    every point and the moment of every point of the sweep are not numbers,
    and [Mo_approx] is left at 0. *)
Theorem barArea_NaN_drawn (i : Inputs) :
  rejected i = false -> barArea i = NaN ->
  exists d : Diagram,
    calculateAndDraw i = Some d
    /\ length (points d) = 22%nat
    /\ Po d = NaN
    /\ Mo_approx d = Num 0
    /\ Forall (fun p => Point.y p = NaN) (points d)
    /\ (forall r : num, sweepPoint i r = Point.mk NaN NaN).
Proof.
  intros Hacc Hbar.
  assert (Hast : Ast (steelLayers (h i) (cover i) (barArea i) (nx i) (ny i))
                 = NaN).
  { destruct (steelLayers_head (h i) (cover i) (barArea i) (nx i) (ny i))
      as (rest & ->).
    unfold Ast. cbn [fold_left Layer.As]. rewrite Hbar, mul_NaN_r.
    cbn [add lift2]. apply Ast_NaN_fold. }
  assert (Hpt : forall r : num, sweepPoint i r = Point.mk NaN NaN).
  { intros r. unfold sweepPoint, calculatePoint, internalForces.
    destruct (steelLayers_head (h i) (cover i) (barArea i) (nx i) (ny i))
      as (rest & ->).
    cbn [fold_left]. unfold steelStep at 2. cbn [Layer.As Layer.y].
    rewrite Hbar, !mul_NaN_r. cbn [mul lift2]. rewrite !add_NaN_r.
    rewrite steel_fold_NaN. reflexivity. }
  rewrite (calculateAndDraw_accepted i Hacc). eexists.
  split; [reflexivity|]. cbn [points Po Mo_approx].
  split; [cbn [length]; rewrite length_app, length_map; reflexivity|].
  rewrite Hast.
  assert (HPo : pureCompression (fc i) (fy i) (Ag (b i) (h i)) NaN = NaN).
  { unfold pureCompression. rewrite mul_NaN_r.
    destruct (Num 0.85 * fc i * (Ag (b i) (h i) - NaN))%js; reflexivity. }
  assert (HPt : pureTension (fy i) NaN = NaN).
  { unfold pureTension. now rewrite mul_NaN_r. }
  rewrite HPo, HPt.
  split; [reflexivity|]. split; [|split; [|exact Hpt]].
  - apply runningMax_all_NaN. apply Forall_forall. intros x Hx.
    apply in_map_iff in Hx. destruct Hx as (r & <- & _). now rewrite Hpt.
  - constructor; [reflexivity|]. apply Forall_app. split.
    + apply Forall_forall. intros p Hp. apply in_map_iff in Hp.
      destruct Hp as (r & <- & _). now rewrite Hpt.
    + constructor; [reflexivity | constructor].
Qed.

Lemma barArea_NaN_drawn_witness :
  rejected noBarArea = false /\ barArea noBarArea = NaN /\
  exists d : Diagram,
    calculateAndDraw noBarArea = Some d /\ Mo_approx d = Num 0.
Proof.
  split; [reflexivity|]. split; [reflexivity|].
  destruct (barArea_NaN_drawn noBarArea eq_refl eq_refl)
    as (d & Hd & _ & _ & Hmo & _).
  exists d. split; [exact Hd | exact Hmo].
Defined.

(** ** The steel law *)

Lemma elasticStress_decreasing (c d1 d2 : Q) :
  0 < c -> d1 <= d2 -> elasticStress c d2 <= elasticStress c d1.
Proof.
  intros Hc Hd. unfold elasticStress.
  assert (H : 0 <= 0.003 * (d2 - d1) / c) by (apply Qdiv_nonneg; lra).
  assert (E : 0.003 * (c - d1) / c
              == 0.003 * (c - d2) / c + 0.003 * (d2 - d1) / c)
    by (field; lra).
  revert H E.
  generalize (0.003 * (c - d1) / c), (0.003 * (c - d2) / c),
             (0.003 * (d2 - d1) / c).
  intros q1 q2 q3 H E. lra.
Qed.

Lemma elasticStress_sign (c d : Q) :
  0 < c ->
  (d <= c -> 0 <= elasticStress c d) /\ (c <= d -> elasticStress c d <= 0).
Proof.
  intros Hc. unfold elasticStress. split; intros Hd.
  - assert (H : 0 <= 0.003 * (c - d) / c) by (apply Qdiv_nonneg; lra).
    revert H. generalize (0.003 * (c - d) / c). intros q H. lra.
  - assert (H : 0.003 * (c - d) / c <= 0) by (apply Qdiv_nonpos; lra).
    revert H. generalize (0.003 * (c - d) / c). intros q H. lra.
Qed.

(** The stress is the elastic stress cut off at [fy] and [-fy]. *)
Lemma steelStress_exact (c d fy : Q) :
  0 <= fy -> ~ c == 0 ->
  steelStress (Num c) (Num d) (Num fy) epsilon_cu = Num (stressQ c d fy)
  /\ (fy < elasticStress c d -> stressQ c d fy = fy)
  /\ (elasticStress c d < - fy -> stressQ c d fy = - fy)
  /\ (- fy <= elasticStress c d <= fy -> stressQ c d fy = elasticStress c d).
Proof.
  intros Hfy Hc. unfold stressQ, steelStress, epsilon_cu, Es.
  cbn [sub mul lift2]. rewrite div_Num by exact Hc. cbn [mul lift2 neg].
  fold (elasticStress c d).
  destruct (Num (elasticStress c d) >? Num fy)%js eqn:E1.
  - apply gtb_Num_true in E1.
    destruct (Num fy <? Num (- fy))%js eqn:E2.
    + apply ltb_Num_true in E2. lra.
    + split; [reflexivity|]. repeat split; intros; try reflexivity; lra.
  - apply gtb_Num_false in E1.
    destruct (Num (elasticStress c d) <? Num (- fy))%js eqn:E2.
    + apply ltb_Num_true in E2.
      split; [reflexivity|]. repeat split; intros; try reflexivity; lra.
    + apply ltb_Num_false in E2.
      split; [reflexivity|]. repeat split; intros; try reflexivity; lra.
Qed.

(** X6: the steel law along the depth, for [fy > 0] and [c > 0]: the stress
    does not increase with the depth of the layer, it is a compression (not
    negative) above the neutral axis and a tension (not positive) below it,
    it stays elastic while [|Es * strain| <= fy] and is [fy] or [-fy]
    beyond. *)
Theorem steelStress_profile (c d1 d2 fy : Q) :
  0 < fy -> 0 < c -> d1 <= d2 ->
  steelStress (Num c) (Num d1) (Num fy) epsilon_cu = Num (stressQ c d1 fy)
  /\ steelStress (Num c) (Num d2) (Num fy) epsilon_cu = Num (stressQ c d2 fy)
  /\ stressQ c d2 fy <= stressQ c d1 fy
  /\ (d2 <= c -> 0 <= stressQ c d2 fy)
  /\ (c <= d1 -> stressQ c d1 fy <= 0)
  /\ (fy < elasticStress c d1 -> stressQ c d1 fy = fy)
  /\ (elasticStress c d1 < - fy -> stressQ c d1 fy = - fy)
  /\ (- fy <= elasticStress c d1 <= fy ->
      stressQ c d1 fy = elasticStress c d1).
Proof.
  intros Hfy Hc Hd.
  destruct (steelStress_exact c d1 fy) as (H1 & Hhi1 & Hlo1 & Hmid1);
    try lra.
  destruct (steelStress_exact c d2 fy) as (H2 & Hhi2 & Hlo2 & Hmid2);
    try lra.
  pose proof (elasticStress_decreasing c d1 d2 Hc Hd) as Hdec.
  destruct (elasticStress_sign c d1 Hc) as (Hp1 & Hn1).
  destruct (elasticStress_sign c d2 Hc) as (Hp2 & Hn2).
  split; [exact H1|]. split; [exact H2|].
  assert (Hcases : forall d : Q,
            (fy < elasticStress c d \/ elasticStress c d < - fy)
            \/ - fy <= elasticStress c d <= fy).
  { intros d. destruct (Qlt_le_dec fy (elasticStress c d)); [tauto|].
    destruct (Qlt_le_dec (elasticStress c d) (- fy)); [tauto|]. right.
    split; assumption. }
  split; [|split; [|split; [|split; [exact Hhi1 | split; assumption]]]].
  - destruct (Hcases d1) as [[C1|C1]|C1], (Hcases d2) as [[C2|C2]|C2];
      try rewrite (Hhi1 C1); try rewrite (Hlo1 C1); try rewrite (Hmid1 C1);
      try rewrite (Hhi2 C2); try rewrite (Hlo2 C2); try rewrite (Hmid2 C2);
      lra.
  - intros Hd2. specialize (Hp2 Hd2).
    destruct (Hcases d2) as [[C2|C2]|C2];
      try rewrite (Hhi2 C2); try rewrite (Hlo2 C2); try rewrite (Hmid2 C2);
      lra.
  - intros Hd1. specialize (Hn1 Hd1).
    destruct (Hcases d1) as [[C1|C1]|C1];
      try rewrite (Hhi1 C1); try rewrite (Hlo1 C1); try rewrite (Hmid1 C1);
      lra.
Qed.

Lemma steelStress_profile_witness :
  0 < 4200 /\ 0 < 25 /\ 4 <= 46 /\
  stressQ 25 46 4200 <= stressQ 25 4 4200.
Proof.
  split; [reflexivity|]. split; [reflexivity|]. split; [discriminate|].
  apply (steelStress_profile 25 4 46 4200); [reflexivity | reflexivity|].
  discriminate.
Defined.

(** ** Bounds on the axial force of the sweep *)

Lemma stressQ_bounds (c d fy : Q) :
  0 <= fy -> ~ c == 0 -> - fy <= stressQ c d fy <= fy.
Proof.
  intros Hfy Hc.
  destruct (steelStress_exact c d fy Hfy Hc) as (_ & Hhi & Hlo & Hmid).
  destruct (Qlt_le_dec fy (elasticStress c d)) as [C|C];
    [rewrite (Hhi C); lra|].
  destruct (Qlt_le_dec (elasticStress c d) (- fy)) as [C'|C'];
    [rewrite (Hlo C'); lra|].
  rewrite (Hmid (conj C' C)). lra.
Qed.

Lemma steelStep_Q (c h fy pn mn d a : Q) :
  0 <= fy -> ~ c == 0 ->
  steelStep (Num c) (Num h) (Num fy) epsilon_cu (Num pn, Num mn)
    (Layer.mk (Num d) (Num a))
  = (Num (pn + stressQ c d fy * a),
     Num (mn + stressQ c d fy * a * (h / 2 - d))).
Proof.
  intros Hfy Hc. unfold steelStep. cbn [Layer.y Layer.As].
  destruct (steelStress_exact c d fy Hfy Hc) as (-> & _).
  rewrite div_Num by lra. reflexivity.
Qed.






(** ** Sign of the moments of the sweep *)














(** * The page *)

Lemma handler_rejected (toFixed1 : num -> String.string) (p : Page.t)
    (i : Inputs) :
  rejected i = true -> Page.handler toFixed1 p i = p.
Proof.
  intros Hrej. unfold Page.handler, calculateAndDraw. now rewrite Hrej.
Qed.

Lemma handler_accepted (toFixed1 : num -> String.string) (p : Page.t)
    (i : Inputs) :
  rejected i = false ->
  exists d : Diagram,
    calculateAndDraw i = Some d
    /\ Page.handler toFixed1 p i
       = Page.mk (Some (Page.mkChart (points d)))
           (S (Page.created p))
           (match Page.pmChart p with
            | Some _ => S (Page.destroyed p)
            | None => Page.destroyed p
            end)
           (Page.textPo toFixed1 (Po d))
           (Page.textMo toFixed1 (Mo_approx d)).
Proof.
  intros Hacc. unfold Page.handler.
  rewrite (calculateAndDraw_accepted i Hacc). eexists.
  split; [reflexivity|]. unfold Page.drawChart.
  cbn [Page.pmChart Page.created Page.destroyed Page.valPo Page.valMo
       points Po Mo_approx].
  destruct (Page.pmChart p); reflexivity.
Qed.

Lemma run_rejected (toFixed1 : num -> String.string) (evs : list Inputs) :
  Forall (fun i => rejected i = true) evs ->
  forall p : Page.t, Page.run toFixed1 p evs = p.
Proof.
  induction 1 as [|i evs Hi _ IH]; intros p; [reflexivity|].
  unfold Page.run in *. cbn [fold_left].
  rewrite handler_rejected by exact Hi. apply IH.
Qed.

Lemma run_cons (toFixed1 : num -> String.string) (p : Page.t) (i : Inputs)
    (evs : list Inputs) :
  Page.run toFixed1 p (i :: evs)
  = Page.run toFixed1 (Page.handler toFixed1 p i) evs.
Proof. reflexivity. Qed.

Lemma accepted_cons (i : Inputs) (evs : list Inputs) :
  Page.accepted (i :: evs)
  = ((if rejected i then 0 else 1) + Page.accepted evs)%nat.
Proof. unfold Page.accepted. cbn [filter]. now destruct (rejected i). Qed.

(** The counters along a run. *)
Lemma run_counters (toFixed1 : num -> String.string) :
  forall (evs : list Inputs) (q : Page.t),
    Page.destroyed q = (Page.created q - 1)%nat ->
    (Page.pmChart q = None <-> Page.created q = 0%nat) ->
    Page.created (Page.run toFixed1 q evs)
    = (Page.created q + Page.accepted evs)%nat
    /\ Page.destroyed (Page.run toFixed1 q evs)
       = (Page.created (Page.run toFixed1 q evs) - 1)%nat
    /\ (Page.pmChart (Page.run toFixed1 q evs) = None
        <-> Page.created (Page.run toFixed1 q evs) = 0%nat).
Proof.
  induction evs as [|i evs IH]; intros q Hd Hnone.
  - cbn. split; [lia|]. split; assumption.
  - rewrite run_cons, accepted_cons. destruct (rejected i) eqn:Hrej.
    + rewrite handler_rejected by exact Hrej. apply (IH q Hd Hnone).
    + destruct (handler_accepted toFixed1 q i Hrej) as (d & _ & ->).
      match goal with
      | |- context [Page.run toFixed1 ?q' evs] =>
          destruct (IH q') as (Hc & Hd' & Hn')
      end.
      * cbn [Page.destroyed Page.created].
        destruct (Page.pmChart q) eqn:Hq.
        -- assert (Page.created q <> 0%nat)
             by (rewrite <- Hnone; discriminate).
           lia.
        -- assert (Page.created q = 0%nat) by now apply Hnone.
           lia.
      * cbn [Page.pmChart Page.created]. split; [discriminate | lia].
      * cbn [Page.created] in Hc. split; [lia|]. split; assumption.
Qed.

(** X11: whatever the events, from the first calculation on: every accepted
    event creates one chart and destroys the one before, so that the charts
    created are as many as the accepted events, at most one is alive, and it
    is the one held in [pmChart]. *)
Theorem page_one_chart (toFixed1 : num -> String.string)
    (po0 mo0 : String.string) (evs : list Inputs) :
  let p := Page.run toFixed1 (Page.initial po0 mo0) evs in
  Page.created p = Page.accepted evs
  /\ Page.destroyed p = (Page.accepted evs - 1)%nat
  /\ Page.live p = match Page.pmChart p with Some _ => 1 | None => 0 end%nat
  /\ (Page.live p <= 1)%nat
  /\ (Page.pmChart p = None <-> Page.accepted evs = 0%nat).
Proof.
  intros p.
  destruct (run_counters toFixed1 evs (Page.initial po0 mo0))
    as (Hc & Hd & Hn).
  - reflexivity.
  - cbn. tauto.
  - fold p in Hc, Hd, Hn. cbn [Page.initial Page.created] in Hc.
    rewrite Nat.add_0_l in Hc. rewrite Hc in Hd, Hn.
    split; [exact Hc|]. split; [exact Hd|].
    unfold Page.live. rewrite Hc, Hd.
    destruct (Page.pmChart p) eqn:Hp.
    + assert (Page.accepted evs <> 0%nat) by (rewrite <- Hn; discriminate).
      split; [lia|]. split; [lia|]. split; [discriminate | lia].
    + assert (Page.accepted evs = 0%nat) by now apply Hn.
      split; [lia|]. split; [lia|]. tauto.
Qed.

(** X12: the page always shows the last accepted event: its points are in the
    chart and its [Po] and [Mo_approx] in the summary, whatever came before
    it and whatever rejected events follow it. *)
Theorem page_shows_last_accepted (toFixed1 : num -> String.string)
    (p : Page.t) (before after : list Inputs) (i : Inputs) :
  rejected i = false ->
  Forall (fun j => rejected j = true) after ->
  exists d : Diagram,
    calculateAndDraw i = Some d
    /\ let q := Page.run toFixed1 p (before ++ i :: after) in
       Page.pmChart q = Some (Page.mkChart (points d))
       /\ Page.valPo q = Page.textPo toFixed1 (Po d)
       /\ Page.valMo q = Page.textMo toFixed1 (Mo_approx d).
Proof.
  intros Hacc Hrej.
  destruct (handler_accepted toFixed1 (Page.run toFixed1 p before) i Hacc)
    as (d & Hd & Hh).
  exists d. split; [exact Hd|]. intros q. unfold q, Page.run.
  rewrite fold_left_app. cbn [fold_left].
  fold (Page.run toFixed1 p before). rewrite Hh.
  match goal with
  | |- context [fold_left (Page.handler toFixed1) after ?q'] =>
      change (fold_left (Page.handler toFixed1) after q')
        with (Page.run toFixed1 q' after)
  end.
  rewrite run_rejected by exact Hrej. repeat split.
Qed.

Lemma page_shows_last_accepted_witness :
  rejected sample = false /\
  Forall (fun j => rejected j = true) [noStrength] /\
  exists d : Diagram,
    calculateAndDraw sample = Some d
    /\ Page.pmChart
         (Page.run (fun _ => String.EmptyString)
            (Page.initial String.EmptyString String.EmptyString)
            ([oneSideBar] ++ sample :: [noStrength]))
       = Some (Page.mkChart (points d)).
Proof.
  assert (Hrej : Forall (fun j => rejected j = true) [noStrength])
    by (constructor; [reflexivity | constructor]).
  split; [reflexivity|]. split; [exact Hrej|].
  destruct (page_shows_last_accepted (fun _ => String.EmptyString)
              (Page.initial String.EmptyString String.EmptyString)
              [oneSideBar] [noStrength] sample eq_refl Hrej)
    as (d & Hd & Hq & _).
  exists d. split; [exact Hd | exact Hq].
Defined.

(** X13: events that do not pass the validation leave the page as it is: no
    chart is created or destroyed and the summary keeps its text. *)
Theorem page_rejected_events (toFixed1 : num -> String.string)
    (p : Page.t) (evs : list Inputs) :
  Forall (fun i => isNaN (fc i) = true \/ isNaN (fy i) = true
                   \/ isNaN (b i) = true \/ isNaN (h i) = true
                   \/ isNaN (cover i) = true
                   \/ nx i = None \/ ny i = None) evs ->
  Page.run toFixed1 p evs = p.
Proof.
  intros Hall. apply run_rejected.
  apply Forall_forall. intros i Hi. rewrite Forall_forall in Hall.
  specialize (Hall i Hi). unfold rejected.
  destruct Hall as [H|[H|[H|[H|[H|[H|H]]]]]]; rewrite H; cbn [ofInt isNaN];
    repeat rewrite orb_true_r; reflexivity.
Qed.

Lemma page_rejected_events_witness :
  Forall (fun i => isNaN (fc i) = true \/ isNaN (fy i) = true
                   \/ isNaN (b i) = true \/ isNaN (h i) = true
                   \/ isNaN (cover i) = true
                   \/ nx i = None \/ ny i = None) [noStrength; noStrength]
  /\ Page.run (fun _ => String.EmptyString)
       (Page.initial String.EmptyString String.EmptyString)
       [noStrength; noStrength]
     = Page.initial String.EmptyString String.EmptyString.
Proof.
  assert (H : Forall (fun i => isNaN (fc i) = true \/ isNaN (fy i) = true
                   \/ isNaN (b i) = true \/ isNaN (h i) = true
                   \/ isNaN (cover i) = true
                   \/ nx i = None \/ ny i = None) [noStrength; noStrength]).
  { repeat (constructor; [left; reflexivity|]). constructor. }
  split; [exact H|].
  exact (page_rejected_events (fun _ => String.EmptyString)
           (Page.initial String.EmptyString String.EmptyString)
           [noStrength; noStrength] H).
Defined.

(** * Where the cap of the stress block acts *)

(** X9: whatever [fc], the stress block is capped at [h] for the first ratio of
    the ladder, 2.0, where the concrete then gives no moment; it is never
    capped for a ratio up to 1.1, where its depth is [beta1 * c < h]. *)
Theorem block_saturation (qfc qh : Q) :
  0 < qh ->
  exists beta : Q,
    beta1 (Num qfc) = Num beta
    /\ blockDepth (Num 2.0 * Num qh)%js (Num qh) (Num beta) = Num qh
    /\ (forall qb : Q,
          exists mc : Q,
            concreteMoment (Num qh)
              (concreteForce (Num qb) (Num qfc) (Num qh)) (Num qh) = Num mc
            /\ mc == 0)
    /\ (forall r : Q,
          0 < r -> r <= 1.1 ->
          blockDepth (Num r * Num qh)%js (Num qh) (Num beta)
          = Num (beta * (r * qh))
          /\ beta * (r * qh) < qh).
Proof.
  intros Hh. destruct (beta1_numeric qfc) as (beta & Hbeta & Hlo & Hhi).
  exists beta. split; [exact Hbeta|]. split; [|split].
  - unfold blockDepth. cbn [mul lift2].
    assert (Hgt : (Num (beta * (2.0 * qh)) >? Num qh)%js = true).
    { apply gtb_Num_true.
      assert (0.65 * (2.0 * qh) <= beta * (2.0 * qh))
        by (apply Qmult_le_compat_r; lra).
      lra. }
    now rewrite Hgt.
  - intros qb. unfold concreteMoment, concreteForce.
    rewrite !div_Num by lra. cbn [mul sub lift2]. eexists.
    split; [reflexivity|]. ring.
  - intros r Hr Hr'.
    assert (Hrh : 0 < r * qh) by (apply Qmult_lt_0_compat; assumption).
    assert (H1 : beta * (r * qh) <= 0.85 * (r * qh))
      by (apply Qmult_le_compat_r; lra).
    assert (H2 : r * qh <= 1.1 * qh) by (apply Qmult_le_compat_r; lra).
    assert (Hlt : beta * (r * qh) < qh) by lra.
    split; [|exact Hlt].
    unfold blockDepth. cbn [mul lift2].
    assert (Hle : (Num (beta * (r * qh)) >? Num qh)%js = false)
      by (apply gtb_Num_false; lra).
    now rewrite Hle.
Qed.

Lemma block_saturation_witness :
  0 < 50 /\
  exists beta : Q,
    beta1 (Num 280) = Num beta
    /\ blockDepth (Num 2.0 * Num 50)%js (Num 50) (Num beta) = Num 50.
Proof.
  split; [reflexivity|].
  destruct (block_saturation 280 50 eq_refl) as (beta & Hb & Hcap & _).
  exists beta. split; [exact Hb | exact Hcap].
Defined.

(** * Order of the axial forces along the sweep *)

Lemma elasticStress_increasing_c (c1 c2 d : Q) :
  0 < c1 -> c1 <= c2 -> 0 <= d ->
  elasticStress c1 d <= elasticStress c2 d.
Proof.
  intros Hc1 Hc Hd. unfold elasticStress.
  assert (Hprod : 0 < c1 * c2) by (apply Qmult_lt_0_compat; lra).
  assert (Hnum : 0 <= 0.003 * d * (c2 - c1))
    by (apply Qmult_le_0_compat; lra).
  assert (H : 0 <= 0.003 * d * (c2 - c1) / (c1 * c2))
    by (apply Qdiv_nonneg; assumption).
  assert (E : 0.003 * (c2 - d) / c2
              == 0.003 * (c1 - d) / c1 + 0.003 * d * (c2 - c1) / (c1 * c2))
    by (field; split; lra).
  revert H E.
  generalize (0.003 * (c2 - d) / c2), (0.003 * (c1 - d) / c1),
             (0.003 * d * (c2 - c1) / (c1 * c2)).
  intros q2 q1 q3 H E. lra.
Qed.

Lemma stressQ_increasing_c (c1 c2 d fy : Q) :
  0 <= fy -> 0 < c1 -> c1 <= c2 -> 0 <= d ->
  stressQ c1 d fy <= stressQ c2 d fy.
Proof.
  intros Hfy Hc1 Hc Hd.
  destruct (steelStress_exact c1 d fy) as (_ & Hhi1 & Hlo1 & Hmid1);
    try lra.
  destruct (steelStress_exact c2 d fy) as (_ & Hhi2 & Hlo2 & Hmid2);
    try lra.
  pose proof (elasticStress_increasing_c c1 c2 d Hc1 Hc Hd) as Hinc.
  destruct (stressQ_bounds c1 d fy Hfy ltac:(lra)) as (Ha & Hb).
  destruct (stressQ_bounds c2 d fy Hfy ltac:(lra)) as (Ha' & Hb').
  destruct (Qlt_le_dec fy (elasticStress c2 d)) as [C|C];
    [rewrite (Hhi2 C); lra|].
  destruct (Qlt_le_dec (elasticStress c1 d) (- fy)) as [C'|C'];
    [rewrite (Hlo1 C'); lra|].
  rewrite Hmid1, Hmid2; lra.
Qed.

Lemma blockDepth_increasing (c1 c2 h beta : Q) :
  0 <= beta -> c1 <= c2 ->
  exists a1 a2 : Q,
    blockDepth (Num c1) (Num h) (Num beta) = Num a1
    /\ blockDepth (Num c2) (Num h) (Num beta) = Num a2
    /\ a1 <= a2.
Proof.
  intros Hb Hc.
  assert (Hbc : beta * c1 <= beta * c2).
  { rewrite (Qmult_comm beta c1), (Qmult_comm beta c2).
    apply Qmult_le_compat_r; assumption. }
  unfold blockDepth. cbn [mul lift2].
  destruct (Num (beta * c1) >? Num h)%js eqn:E1;
    destruct (Num (beta * c2) >? Num h)%js eqn:E2;
    try apply gtb_Num_true in E1; try apply gtb_Num_false in E1;
    try apply gtb_Num_true in E2; try apply gtb_Num_false in E2;
    eexists; eexists; (split; [reflexivity|]); (split; [reflexivity|]); lra.
Qed.

Lemma steel_fold_increasing (c1 c2 h fy : Q) :
  0 <= fy -> 0 < c1 -> c1 <= c2 ->
  forall layers : list Layer.t,
    Forall (fun l : Layer.t =>
              exists d a : Q,
                l = Layer.mk (Num d) (Num a) /\ 0 <= d /\ 0 <= a) layers ->
    forall pn1 mn1 pn2 mn2 : Q,
      pn1 <= pn2 ->
      exists pn1' mn1' pn2' mn2' : Q,
        fold_left (steelStep (Num c1) (Num h) (Num fy) epsilon_cu) layers
          (Num pn1, Num mn1) = (Num pn1', Num mn1')
        /\ fold_left (steelStep (Num c2) (Num h) (Num fy) epsilon_cu) layers
             (Num pn2, Num mn2) = (Num pn2', Num mn2')
        /\ pn1' <= pn2'.
Proof.
  intros Hfy Hc1 Hc.
  induction layers as [|l layers IH]; intros Hall pn1 mn1 pn2 mn2 Hle.
  - exists pn1, mn1, pn2, mn2. repeat split; assumption.
  - inversion Hall as [|? ? (d & a & -> & Hd & Ha) Hrest]; subst.
    cbn [fold_left]. rewrite !steelStep_Q by lra.
    apply (IH Hrest).
    pose proof (stressQ_increasing_c c1 c2 d fy Hfy Hc1 Hc Hd) as Hs.
    assert (H : 0 <= (stressQ c2 d fy - stressQ c1 d fy) * a)
      by (apply Qmult_le_0_compat; lra).
    assert (E : (stressQ c2 d fy - stressQ c1 d fy) * a
                == stressQ c2 d fy * a - stressQ c1 d fy * a) by ring.
    rewrite E in H. lra.
Qed.

(** The axial force of the solver does not decrease with the depth of the
    neutral axis. *)
Lemma sweep_axial_increasing (fc fy b h cover barArea : Q) (nx ny : Z)
    (r1 r2 : Q) :
  invariants fc fy b h cover barArea nx ny ->
  0 < r1 -> r1 <= r2 ->
  exists p1 m1 p2 m2 : Q,
    sweepPoint (numeric fc fy b h cover barArea nx ny) (Num r1)
    = Point.mk (Num m1) (Num p1)
    /\ sweepPoint (numeric fc fy b h cover barArea nx ny) (Num r2)
       = Point.mk (Num m2) (Num p2)
    /\ p1 <= p2.
Proof.
  intros Hinv Hr1 Hr.
  destruct Hinv as (Hfc & Hfy & Hb & Hh & Hcover & Hbar & Hc2 & Hnx & Hny).
  assert (Hall : Forall (fun l : Layer.t =>
                   exists d a : Q,
                     l = Layer.mk (Num d) (Num a) /\ 0 <= d /\ 0 <= a)
                   (steelLayers (Num h) (Num cover) (Num barArea) (Some nx)
                      (Some ny))).
  { assert (Harea : 0 <= inject_Z nx * barArea).
    { apply Qmult_le_0_compat; [apply inject_Z_nonneg; lia | lra]. }
    rewrite steelLayers_numeric.
    constructor; [eexists; eexists; split; [reflexivity|]; split; lra|].
    constructor; [eexists; eexists; split; [reflexivity|]; split; lra|].
    pose proof (sideLayers_inside h cover barArea ny Hbar Hc2) as Hsides.
    revert Hsides. apply Forall_impl.
    intros l (d & a & -> & (Hlo & Hhi) & Ha).
    exists d, a. split; [reflexivity|]. split; lra. }
  assert (Hc1 : 0 < r1 * h) by (apply Qmult_lt_0_compat; assumption).
  assert (Hc : r1 * h <= r2 * h) by (apply Qmult_le_compat_r; lra).
  destruct (beta1_numeric fc) as (beta & Hbeta & Hrange).
  destruct (blockDepth_increasing (r1 * h) (r2 * h) h beta ltac:(lra) Hc)
    as (a1 & a2 & Ha1 & Ha2 & Hle).
  assert (Hk : 0 < 0.85 * fc * b) by (repeat apply Qmult_lt_0_compat; lra).
  assert (Hcc : 0 + 0.85 * fc * b * a1 <= 0 + 0.85 * fc * b * a2).
  { assert (0 <= 0.85 * fc * b * (a2 - a1))
      by (apply Qmult_le_0_compat; lra).
    assert (E : 0.85 * fc * b * (a2 - a1)
                == 0.85 * fc * b * a2 - 0.85 * fc * b * a1) by ring.
    lra. }
  destruct (steel_fold_increasing (r1 * h) (r2 * h) h fy ltac:(lra) Hc1 Hc
              _ Hall
              (0 + 0.85 * fc * b * a1)
              (0 + 0.85 * fc * b * a1 * (h / 2 - a1 / 2))
              (0 + 0.85 * fc * b * a2)
              (0 + 0.85 * fc * b * a2 * (h / 2 - a2 / 2)) Hcc)
    as (pn1 & mn1 & pn2 & mn2 & Hf1 & Hf2 & Hp).
  exists (pn1 / 1000), (mn1 / 100000), (pn2 / 1000), (mn2 / 100000).
  rewrite !sweepPoint_of_numeric. unfold calculatePoint, internalForces.
  rewrite Hbeta. cbn [mul lift2]. rewrite Ha1, Ha2.
  unfold concreteMoment, concreteForce. rewrite !div_Num by lra.
  cbn [add sub mul lift2]. rewrite Hf1, Hf2. rewrite !div_Num by lra.
  split; [reflexivity|]. split; [reflexivity|].
  assert (E1 : pn1 / 1000 == pn1 * (1 # 1000)) by field.
  assert (E2 : pn2 / 1000 == pn2 * (1 # 1000)) by field.
  rewrite E1, E2. lra.
Qed.

Lemma StronglySorted_map_in {A B : Type} (R : A -> A -> Prop)
    (S : B -> B -> Prop) (f : A -> B) (l : list A) :
  (forall x y : A, In x l -> In y l -> R x y -> S (f x) (f y)) ->
  StronglySorted R l -> StronglySorted S (map f l).
Proof.
  intros Hf Hs. induction Hs as [|x l Hs IH Hx]; cbn [map].
  - constructor.
  - constructor.
    + apply IH. intros u v Hu Hv. apply Hf; now right.
    + apply Forall_forall. intros z Hz. apply in_map_iff in Hz.
      destruct Hz as (y & <- & Hy). rewrite Forall_forall in Hx.
      apply Hf; [now left | now right | now apply Hx].
Qed.

(** X10: for a valid input the axial forces of the points of the sweep, in the
    order in which they are emitted, never increase: each point of the sweep
    has an axial force not above that of every point before it. *)
Theorem sweep_axial_descending (fc fy b h cover barArea : Q) (nx ny : Z) :
  invariants fc fy b h cover barArea nx ny ->
  StronglySorted (fun p q : Point.t => le (Point.y q) (Point.y p))
    (map (sweepPoint (numeric fc fy b h cover barArea nx ny)) c_ratios).
Proof.
  intros Hinv. rewrite c_ratios_ladder, map_map.
  apply (StronglySorted_map_in (fun p q : Q => q < p)); [|exact ladder_descending].
  intros r2 r1 Hr2 Hr1 Hlt.
  destruct (sweep_axial_increasing fc fy b h cover barArea nx ny r1 r2 Hinv
              (ladder_positive r1 Hr1) ltac:(lra))
    as (p1 & m1 & p2 & m2 & -> & -> & Hle).
  exact Hle.
Qed.

Lemma sweep_axial_descending_witness :
  invariants 280 4200 30 50 4 2.85 3 3 /\
  StronglySorted (fun p q : Point.t => le (Point.y q) (Point.y p))
    (map (sweepPoint sample) c_ratios).
Proof.
  assert (Hinv : invariants 280 4200 30 50 4 2.85 3 3) by check_invariants.
  split; [exact Hinv|].
  exact (sweep_axial_descending 280 4200 30 50 4 2.85 3 3 Hinv).
Defined.
